(** * SSF core: admin serials, link endpoints, buffered TLS reads, proxy settings

    A shallow embedding of
    - [services/admin/admin.h]            (module [admin]),
    - [layer/proxy/basic_proxy_protocol.h], [layer/physical/tcp.h] and
      [basic_tls::make_endpoint_context] (module [layer]),
    - [TLSStreamBufferer] and [basic_buffered_tls_socket] of
      [layer/cryptography/tls/OpenSSL/impl.h] (module [tls]),
    - [common/config/proxy.h]             (module [config]).

    Unsigned 32-bit values are integers of [Z] reduced with [wrap32];
    [std::map] is a [gmap]; the handlers an [io_service] has been given
    are an explicit list in the state. *)

From Equations Require Import Equations.
From Equations.Prop Require Logic.
From stdpp Require Import base numbers option list gmap strings.

Local Open Scope Z_scope.

(** ** Unsigned 32-bit arithmetic *)

Definition UINT32_MAX : Z := 4294967295.

Definition wrap32 (z : Z) : Z := z mod 4294967296.

(** ** Error codes

    A [boost::system::error_code] is a value and a category. Conversion to
    [bool] tests the value against 0; the default constructed code is
    success in the system category. *)

Inductive error_category : Type :=
  | system_category
  | ssf_category
  | other_category (name : string).

Record error_code : Type := mk_error_code {
  value : Z;
  category : error_category
}.

Definition success : error_code := mk_error_code 0 system_category.

(** [if (ec)] *)
Definition failed (ec : error_code) : bool := negb (value ec =? 0).

(** ** The admin service: command serials and reply handlers *)

Module admin.

(** [CommandHandler] is a [std::function]; the model keeps which function
    it is: the empty lambda stored by [GetAvailableSerial], or a handler
    supplied by a caller, told apart by a number. *)
Inductive CommandHandler : Type :=
  | placeholder
  | handler (h : nat).

#[global] Instance CommandHandler_eq_dec : EqDecision CommandHandler.
Proof. solve_decision. Defined.

(** The fields of [Admin] the handler table works on. [io_service] is the
    list of handler calls posted to the io_service, oldest first; each is
    run once by the io_service, with a default (success) error code. *)
Record Admin : Type := mkAdmin {
  is_server_ : bool;
  command_serial_received_ : Z;
  command_handlers_ : gmap Z CommandHandler;
  io_service : list CommandHandler
}.

Definition set_command_handlers (m : gmap Z CommandHandler) (a : Admin) : Admin :=
  mkAdmin (is_server_ a) (command_serial_received_ a) m (io_service a).

Definition post (h : CommandHandler) (a : Admin) : Admin :=
  mkAdmin (is_server_ a) (command_serial_received_ a) (command_handlers_ a)
          (io_service a ++ [h]).

(** [command_handlers_[serial] = command_handler] *)
Definition InsertHandler (serial : Z) (command_handler : CommandHandler)
    (a : Admin) : Admin :=
  set_command_handlers (<[serial := command_handler]> (command_handlers_ a)) a.

(** [command_handlers_.erase(serial)] *)
Definition EraseHandler (serial : Z) (a : Admin) : Admin :=
  set_command_handlers (delete serial (command_handlers_ a)) a.

(** The body tests and reads [command_serial_received_]; the parameter
    [serial] is not used. *)
Definition ExecuteAndRemoveCommandHandler (serial : Z) (a : Admin) : Admin :=
  match command_handlers_ a !! command_serial_received_ a with
  | Some command_handler =>
      EraseHandler (command_serial_received_ a) (post command_handler a)
  | None => a
  end.

(** The [for] loop of [GetAvailableSerial], entered with the loop variable
    at [serial]. The result is the returned serial and the table. *)
Equations? GetAvailableSerial_from (is_server : bool)
    (m : gmap Z CommandHandler) (serial : Z) : Z * gmap Z CommandHandler
    by wf (Z.to_nat (UINT32_MAX - serial)) lt :=
  GetAvailableSerial_from is_server m serial
    with decide (serial < UINT32_MAX) := {
    | right _ := (0, m);
    | left _ with m !! wrap32 (serial + Z.b2z is_server) := {
      | None :=
          (wrap32 (serial + Z.b2z is_server),
           <[wrap32 (serial + Z.b2z is_server) := placeholder]> m);
      | Some _ :=
          GetAvailableSerial_from is_server m (wrap32 (serial + 1)) } }.
Proof.
  unfold wrap32, UINT32_MAX in *.
  pose proof (Z.mod_pos_bound (serial + 1) 4294967296).
  destruct (decide (0 <= serial)) as [Hs|Hs].
  - rewrite Z.mod_small by lia. lia.
  - lia.
Qed.

Definition GetAvailableSerial (a : Admin) : Z * Admin :=
  let r := GetAvailableSerial_from (is_server_ a) (command_handlers_ a) 3 in
  (r.1, set_command_handlers r.2 a).

(** A request as [Command] uses it: its [command_id] and the buffer that
    [OnSending] returns. *)
Record Request : Type := mkRequest {
  command_id : Z;
  OnSending : string
}.

(** Modelled from the spec: [AdminCommand] of
    services/admin/admin_command.h, which is not among the sources: the
    tuple of serial, command id, payload length and payload that is
    written to the fiber. *)
Record AdminCommand : Type := mkAdminCommand {
  command_serial : Z;
  command_command_id : Z;
  command_size : Z;
  command_parameters : string
}.

(** [Command]: the result is the command that [AsyncSendCommand] writes to
    the fiber, and the admin. The size is cast to [uint32_t]. *)
Definition Command (request : Request) (handler : CommandHandler) (a : Admin)
    : AdminCommand * Admin :=
  let parameters_buff_to_send := OnSending request in
  let '(serial, a) := GetAvailableSerial a in
  let a := InsertHandler serial handler a in
  (mkAdminCommand serial (command_id request)
     (wrap32 (Z.of_nat (String.length parameters_buff_to_send)))
     parameters_buff_to_send, a).

(** A client table in which every serial the loop tries is registered:
    the keys 3, 4, ..., [UINT32_MAX - 1]. *)
Definition exhausted_table : gmap Z CommandHandler :=
  gset_to_gmap placeholder (list_to_set (seqZ 3 (UINT32_MAX - 3))).

End admin.

(** ** Link layers: building endpoints from the parameter stack *)

Module layer.

(** Modelled from the spec: [LayerParameters] and [ParameterStack] of
    ssf/layer/parameters.h, which is not among the sources: a parameter set
    maps string keys to string values, and the stack is the sequence of
    the sets. A [ParameterStack::const_iterator] is the part of the
    sequence from its position on: [*parameters_it] is [head],
    [++parameters_it] is [tail], and dereferencing at the end has no
    defined result ([None]). *)
Abbreviation LayerParameters := (gmap string string).
Abbreviation ParameterStack := (list (gmap string string)).

(** Modelled from the spec: [basic_VirtualLink_endpoint] of
    ssf/layer/basic_endpoint.h, which is not among the sources. It is the
    recursive endpoint descriptor; [make_endpoint] builds it in three ways:
    [endpoint()], [endpoint(context)] and [endpoint(context, next)]. *)
Inductive basic_VirtualLink_endpoint (C N : Type) : Type :=
  | endpoint_empty
  | endpoint_of_context (context : C)
  | endpoint_of_next (context : C) (next : N).
Arguments endpoint_empty {C N}.
Arguments endpoint_of_context {C N} context.
Arguments endpoint_of_next {C N} context next.

(** A link protocol as the templates use it: its [id], its endpoint type
    and its static [make_endpoint]. The error code is passed by reference
    in the source; here it goes in and comes out. *)
Class LinkProtocol : Type := {
  endpoint : Type;
  id : Z;
  make_endpoint :
    ParameterStack -> Z -> error_code -> option (endpoint * error_code)
}.

Section link_protocols.

(** Helpers of the repository that are not among the sources
    (tcp_helpers.h, proxy_helpers.h, proxy_endpoint_context.h,
    OpenSSL/helpers.h, error.h): taken as parameters. *)
Context {tcp_endpoint ProxyEndpointContext TLSContext : Type}.
Variable make_tcp_endpoint :
  LayerParameters -> error_code -> tcp_endpoint * error_code.
Variable MakeProxyContext :
  LayerParameters -> error_code -> ProxyEndpointContext * error_code.
Variable acceptor_endpoint : ProxyEndpointContext -> bool.
(** [UpdateRemoteHost] changes the context and answers whether it did. *)
Variable UpdateRemoteHost :
  ProxyEndpointContext -> LayerParameters -> ProxyEndpointContext * bool.
(** A null context pointer is [None]. *)
Variable make_tls_context : LayerParameters -> option TLSContext.
Variable invalid_argument : Z.

(** [tcp::make_endpoint] *)
Definition tcp : LinkProtocol := {|
  endpoint := tcp_endpoint;
  id := 1;
  make_endpoint := fun parameters_it _ ec =>
    parameters ← head parameters_it;
    Some (make_tcp_endpoint parameters ec)
|}.

(** [basic_ProxyProtocol<NextLayer>::make_endpoint]. The [&&] of the source
    calls [UpdateRemoteHost], on the set after the layer's own, only for a
    context that is not an acceptor's. *)
Definition basic_ProxyProtocol (NextLayer : LinkProtocol) : LinkProtocol := {|
  endpoint :=
    basic_VirtualLink_endpoint ProxyEndpointContext (@endpoint NextLayer);
  id := 6;
  make_endpoint := fun parameters_it _ ec =>
    parameters ← head parameters_it;
    let '(context, ec) := MakeProxyContext parameters ec in
    if failed ec then Some (endpoint_empty (N := @endpoint NextLayer), ec)
    else
      let parameters_it := tail parameters_it in
      (if negb (acceptor_endpoint context) then
         next_parameters ← head parameters_it;
         Some (UpdateRemoteHost context next_parameters)
       else Some (context, false))
      ≫= fun '((context, has_remote_host) : ProxyEndpointContext * bool) =>
      if has_remote_host then
        Some (endpoint_of_context (N := @endpoint NextLayer) context, ec)
      else
        next ← @make_endpoint NextLayer parameters_it 6 ec;
        Some (endpoint_of_next context next.1, next.2)
|}.

(** [basic_tls::make_endpoint_context] *)
Definition make_endpoint_context (parameters_it : ParameterStack)
    (lower_id : Z) (ec : error_code)
    : option (option TLSContext * error_code) :=
  parameters ← head parameters_it;
  match make_tls_context parameters with
  | None => Some (None, mk_error_code invalid_argument ssf_category)
  | Some context => Some (Some context, ec)
  end.

End link_protocols.

(** Helpers to run [make_endpoint] on a concrete stack. The helpers of the
    repository are not among the sources; these stand for a connecting
    proxy whose context takes the remote host from the next parameter set,
    the case the branch "Proxy context contains remote host data" of
    [make_endpoint] is written for: [MakeProxyContext] succeeds with a
    context that is not an acceptor's, and [UpdateRemoteHost] stores the
    next parameter set and answers [true]. The physical endpoint is the
    parameter set it is made from. *)
Module connecting.

Record ProxyEndpointContext : Type := mk {
  acceptor_endpoint_ : bool;
  remote_host_ : option LayerParameters
}.

Definition MakeProxyContext (parameters : LayerParameters) (ec : error_code)
    : ProxyEndpointContext * error_code :=
  (mk false None, ec).

Definition acceptor_endpoint (context : ProxyEndpointContext) : bool :=
  acceptor_endpoint_ context.

Definition UpdateRemoteHost (context : ProxyEndpointContext)
    (parameters : LayerParameters) : ProxyEndpointContext * bool :=
  (mk (acceptor_endpoint_ context) (Some parameters), true).

Definition make_tcp_endpoint (parameters : LayerParameters) (ec : error_code)
    : LayerParameters * error_code :=
  (parameters, ec).

Definition proxy_over_tcp : LinkProtocol :=
  basic_ProxyProtocol MakeProxyContext acceptor_endpoint UpdateRemoteHost
                      (tcp make_tcp_endpoint).

Definition proxy_parameters : LayerParameters :=
  {[ "http_host" := "proxy.example"; "http_port" := "3128" ]}.

Definition tcp_parameters : LayerParameters :=
  {[ "addr" := "server.example"; "port" := "8011" ]}.

End connecting.

(** [endpoint_stack_size] of [tcp] and of [basic_ProxyProtocol<NextLayer>],
    the latter from that of [NextLayer]. *)
Definition tcp_endpoint_stack_size : nat := 1.

Definition basic_ProxyProtocol_endpoint_stack_size
    (NextLayer_endpoint_stack_size : nat) : nat :=
  1 + NextLayer_endpoint_stack_size.

(** A protocol whose [make_endpoint], given at least [n] parameter sets,
    dereferences no iterator at the end of the stack and reads none but
    the first [n] sets. *)
Definition reads_only (P : LinkProtocol) (n : nat) : Prop :=
  ∀ (stack : ParameterStack) lower ec,
    (n <= length stack)%nat ->
    is_Some (@make_endpoint P stack lower ec)
    ∧ @make_endpoint P (take n stack) lower ec
      = @make_endpoint P stack lower ec.

End layer.

(** ** Proxy settings *)

Module config.

(** [std::string::empty] *)
Definition empty (s : string) : bool :=
  match s with
  | EmptyString => true
  | String _ _ => false
  end.

Module HttpProxy.

Record HttpProxy : Type := mk {
  host_ : string;
  port_ : string;
  user_agent_ : string;
  username_ : string;
  domain_ : string;
  password_ : string;
  reuse_ntlm_ : bool;
  reuse_kerb_ : bool
}.

Definition IsSet (p : HttpProxy) : bool :=
  negb (empty (host_ p)) && negb (empty (port_ p)).

End HttpProxy.

(** Modelled from the spec: [Socks::Version] of ssf/network/socks/socks.h,
    which is not among the sources. The configuration names versions 4 and
    5; [kVUnknown] is the value [IsSet] tests against. *)
Inductive Version : Type := kVUnknown | kV4 | kV5.

#[global] Instance Version_eq_dec : EqDecision Version.
Proof. solve_decision. Defined.

Module SocksProxy.

Record SocksProxy : Type := mk {
  version_ : Version;
  host_ : string;
  port_ : string
}.

Definition IsSet (p : SocksProxy) : bool :=
  negb (bool_decide (version_ p = kVUnknown))
  && negb (empty (host_ p)) && negb (empty (port_ p)).

End SocksProxy.

End config.

(** ** The buffered TLS stream: [TLSStreamBufferer] *)

Module tls.

Local Open Scope N_scope.

Definition lower_queue_size_bound : N := 1 * 1024 * 1024.
Definition higher_queue_size_bound : N := 16 * 1024 * 1024.
Definition receive_buffer_size : N := 50 * 1024.

(** [boost::asio::error::operation_aborted], [ECANCELED] on POSIX. *)
Definition operation_aborted : Z := 125.

(** [boost::asio::error::make_error_code(operation_aborted)] *)
Definition operation_aborted_code : error_code :=
  mk_error_code operation_aborted system_category.

(** A buffer sequence is the list of the sizes of its buffers;
    [boost::asio::buffer_size] adds them up. *)
Definition buffer_size (buffers : list N) : N := foldr N.add 0 buffers.

(** A pending read: the buffers to fill and the handler to call, told
    apart by a number. *)
Record pending_read_stream_operation : Type := mk_op {
  op_buffers : list N;
  op_handler : nat
}.

(** Modelled from the spec: [fill_buffer] of ssf/io/read_stream_op.h, which
    is not among the sources. It copies up to the size of the operation's
    buffers from the queue, removes what it copied from the queue and
    answers how much that was. Here the queue is its size. *)
Definition fill_buffer (op : pending_read_stream_operation) (queue_size : N)
    : N * N :=
  let copied := N.min (buffer_size (op_buffers op)) queue_size in
  (copied, queue_size - copied).

(** What the io_service is given to run. *)
Inductive task : Type :=
  (** [bind(&async_pull_packets, self)] *)
  | async_pull_packets_task
  (** [bind(&handle_data_n_ops, self)] *)
  | handle_data_n_ops_task
  (** the wrapped handler of a pull read, with the outcome of the read *)
  | pull_handler_task (ec : error_code) (length : N)
  (** [op->complete(ec, n)] with [ec] and [n] fixed when posted *)
  | do_complete (op : pending_read_stream_operation) (ec : error_code) (n : N)
  (** [op->complete(status_, 0)]: [status_] is read when the task runs *)
  | do_complete_status (op : pending_read_stream_operation)
  (** [bind(init.handler, error_code(), 0)] *)
  | read_handler_task (handler : nat) (ec : error_code) (n : N).

(** The bufferer with what it acts on. [data_queue_] is the size of the
    [streambuf]'s input; [io_service_] holds the tasks posted and not yet
    run, oldest first; [socket_] holds the reads started on the TLS stream
    and not yet completed, each with the size of its buffer; [is_open]
    tells whether the lowest layer is open; [called] lists the calls made
    to read handlers, oldest first. *)
Record state : Type := mk_state {
  status_ : error_code;
  data_queue_ : N;
  op_queue_ : list pending_read_stream_operation;
  pulling_ : bool;
  io_service_ : list task;
  socket_ : list N;
  is_open : bool;
  called : list (nat * error_code * N)
}.

Definition set_status_ (ec : error_code) (s : state) : state :=
  mk_state ec (data_queue_ s) (op_queue_ s) (pulling_ s) (io_service_ s)
           (socket_ s) (is_open s) (called s).
Definition set_data_queue_ (n : N) (s : state) : state :=
  mk_state (status_ s) n (op_queue_ s) (pulling_ s) (io_service_ s)
           (socket_ s) (is_open s) (called s).
Definition set_op_queue_ (q : list pending_read_stream_operation) (s : state)
    : state :=
  mk_state (status_ s) (data_queue_ s) q (pulling_ s) (io_service_ s)
           (socket_ s) (is_open s) (called s).
Definition set_pulling_ (b : bool) (s : state) : state :=
  mk_state (status_ s) (data_queue_ s) (op_queue_ s) b (io_service_ s)
           (socket_ s) (is_open s) (called s).
Definition set_io_service_ (l : list task) (s : state) : state :=
  mk_state (status_ s) (data_queue_ s) (op_queue_ s) (pulling_ s) l
           (socket_ s) (is_open s) (called s).
Definition set_socket_ (l : list N) (s : state) : state :=
  mk_state (status_ s) (data_queue_ s) (op_queue_ s) (pulling_ s)
           (io_service_ s) l (is_open s) (called s).
Definition set_is_open (b : bool) (s : state) : state :=
  mk_state (status_ s) (data_queue_ s) (op_queue_ s) (pulling_ s)
           (io_service_ s) (socket_ s) b (called s).
Definition set_called (l : list (nat * error_code * N)) (s : state) : state :=
  mk_state (status_ s) (data_queue_ s) (op_queue_ s) (pulling_ s)
           (io_service_ s) (socket_ s) (is_open s) l.

(** [io_service_.post(t)] *)
Definition post (t : task) (s : state) : state :=
  set_io_service_ (io_service_ s ++ [t]) s.

(** [data_queue_.commit(n)] and [data_queue_.consume(n)] *)
Definition commit (n : N) (s : state) : state :=
  set_data_queue_ (data_queue_ s + n) s.
Definition consume (n : N) (s : state) : state :=
  set_data_queue_ (data_queue_ s - N.min n (data_queue_ s)) s.

(** [socket_.async_read_some(bufs, ...)] with [bufs] of [n] bytes. The
    strand only defers the call; the read counts as started. *)
Definition socket_async_read_some (n : N) (s : state) : state :=
  set_socket_ (socket_ s ++ [n]) s.

(** The state the constructor leaves, on a connected stream. *)
Definition create : state :=
  mk_state success 0 [] false [] [] true [].

Definition start_pulling (s : state) : state :=
  if pulling_ s then s
  else post async_pull_packets_task (set_pulling_ true s).

Definition async_read_some (buffers : list N) (handler : nat) (s : state)
    : state :=
  if negb (buffer_size buffers =? 0) then
    post handle_data_n_ops_task
         (set_op_queue_ (op_queue_ s ++ [mk_op buffers handler]) s)
  else post (read_handler_task handler success 0) s.

(** The [while] loop of [cancel]. *)
Fixpoint cancel_ops (ops : list pending_read_stream_operation) (s : state)
    : state :=
  match ops with
  | [] => set_op_queue_ [] s
  | op :: ops' =>
      cancel_ops ops' (post (do_complete op operation_aborted_code 0) s)
  end.

Definition cancel (s : state) : state :=
  let s := set_pulling_ false s in
  let s := consume (data_queue_ s) s in
  cancel_ops (op_queue_ s) s.

(** The first block of the success branch of [handle_data_n_ops]. *)
Definition restart_pulling (s : state) : state :=
  if (data_queue_ s <? lower_queue_size_bound) && negb (pulling_ s)
  then start_pulling s else s.

(** [handle_data_n_ops]. It ends with [io_service_.dispatch] of itself,
    called from a handler the io_service is running, so that the call is
    made at once: the function loops until it finds nothing to serve. *)
Equations? handle_data_n_ops (s : state) : state
    by wf (length (op_queue_ s)) lt :=
  handle_data_n_ops s with failed (status_ s) := {
    | false with Logic.inspect (op_queue_ (restart_pulling s)) := {
      | exist _ [] _ := restart_pulling s;
      | exist _ (op :: ops) _ :=
          let s1 := restart_pulling s in
          if negb (data_queue_ s1 =? 0) then
            let '(copied, rest) := fill_buffer op (data_queue_ s1) in
            handle_data_n_ops
              (post (do_complete op success copied)
                    (set_data_queue_ rest (set_op_queue_ ops s1)))
          else s1 };
    | true with Logic.inspect (op_queue_ s) := {
      | exist _ [] _ := s;
      | exist _ (op :: ops) _ :=
          handle_data_n_ops
            (post (do_complete_status op) (set_op_queue_ ops s)) } }.
Proof.
  - cbn. rewrite e. cbn. lia.
  - cbn. replace (op_queue_ s) with (op_queue_ (restart_pulling s)).
    + rewrite e. cbn. lia.
    + unfold restart_pulling, start_pulling.
      destruct (_ && _), (pulling_ s); reflexivity.
Qed.

(** [async_pull_packets], up to the start of the read. *)
Definition async_pull_packets (s : state) : state :=
  if data_queue_ s <? higher_queue_size_bound
  then socket_async_read_some receive_buffer_size s
  else set_pulling_ false s.

(** The completion handler of the pull read. Both of its [dispatch] calls
    are made from a handler the io_service is running. *)
Definition pull_handler (ec : error_code) (length : N) (s : state) : state :=
  let s :=
    if negb (failed ec) then
      let s := commit length s in
      if negb (failed (status_ s)) then async_pull_packets s else s
    else if (value ec =? operation_aborted)%Z then cancel s
    else set_status_ ec (consume (data_queue_ s) s) in
  handle_data_n_ops s.

(** [basic_buffered_tls_socket::handshake], given the outcome of the TLS
    handshake, and [basic_buffered_tls_socket::close]. *)
Definition handshake (ec : error_code) (s : state) : state :=
  if negb (failed ec) then start_pulling s else s.

Definition close (s : state) : state :=
  cancel (set_is_open false s).

(** Running one task of the io_service. *)
Definition run_task (t : task) (s : state) : state :=
  match t with
  | async_pull_packets_task => async_pull_packets s
  | handle_data_n_ops_task => handle_data_n_ops s
  | pull_handler_task ec length => pull_handler ec length s
  | do_complete op ec n => set_called (called s ++ [(op_handler op, ec, n)]) s
  | do_complete_status op =>
      set_called (called s ++ [(op_handler op, status_ s, 0)]) s
  | read_handler_task h ec n => set_called (called s ++ [(h, ec, n)]) s
  end.

(** What can happen to a buffered socket: calls of its user, the
    io_service running any one of the tasks it holds, and the TLS stream
    completing its oldest read. Each call and each task runs to its end
    before the next event, as under the mutexes of the source with one
    thread in the io_service. A read completes with at most as many bytes
    as its buffer holds, and without error only on an open stream; a closed
    stream stays closed. *)
Inductive event : Type :=
  | call_handshake (ec : error_code)
  | call_async_read_some (buffers : list N) (handler : nat)
  | call_close
  | run_nth (i : nat)
  | read_completes (ec : error_code) (length : N).

Definition step (e : event) (s : state) : option state :=
  match e with
  | call_handshake ec => Some (handshake ec s)
  | call_async_read_some buffers handler =>
      Some (async_read_some buffers handler s)
  | call_close => Some (close s)
  | run_nth i =>
      match io_service_ s !! i with
      | Some t => Some (run_task t (set_io_service_ (delete i (io_service_ s)) s))
      | None => None
      end
  | read_completes ec length =>
      match socket_ s with
      | [] => None
      | n :: reads =>
          if negb (failed ec) && negb (is_open s && (length <=? n)) then None
          else Some (post (pull_handler_task ec length) (set_socket_ reads s))
      end
  end.

Fixpoint run (events : list event) (s : state) : option state :=
  match events with
  | [] => Some s
  | e :: events' =>
      match step e s with
      | Some s' => run events' s'
      | None => None
      end
  end.



(** The operation a task completes, and the read handler a task calls. *)
Definition completed (t : task) : option pending_read_stream_operation :=
  match t with
  | do_complete op _ _ | do_complete_status op => Some op
  | _ => None
  end.

Definition handler_of (t : task) : option nat :=
  match t with
  | do_complete op _ _ | do_complete_status op => Some (op_handler op)
  | read_handler_task handler _ _ => Some handler
  | _ => None
  end.

(** The read handlers a state knows of: those called, those of the
    pending operations, and those the io_service is to call. *)
Definition handlers_of (s : state) : list nat :=
  (called s).*1.*1 ++ map op_handler (op_queue_ s)
  ++ omap handler_of (io_service_ s).

(** The read handlers passed to [async_read_some] in a list of events. *)
Definition requested (events : list event) : list nat :=
  omap (fun e => match e with
                 | call_async_read_some _ handler => Some handler
                 | _ => None
                 end) events.

(** The steps of pull loops under way: the posted [async_pull_packets],
    the reads started and the handlers of completed reads; among them, the
    handlers that will commit to the queue. *)
Definition loop_weight (t : task) : nat :=
  match t with
  | async_pull_packets_task | pull_handler_task _ _ => 1
  | _ => 0
  end.

Definition commit_weight (t : task) : nat :=
  match t with
  | pull_handler_task ec _ => if failed ec then 0 else 1
  | _ => 0
  end.

Definition loop_steps (s : state) : nat :=
  sum_list_with loop_weight (io_service_ s) + length (socket_ s).

Definition commits_due (s : state) : nat :=
  sum_list_with commit_weight (io_service_ s).

(** A handler that will commit has at most a buffer's worth to commit. *)
Definition fits (t : task) : Prop :=
  match t with
  | pull_handler_task ec length =>
      failed ec = false -> length <= receive_buffer_size
  | _ => True
  end.

(** What holds between two events, for [k = 0] and [j = 0]; [k] and [j]
    count a step of the loop, and a commit, that a handler being run has
    taken from the io_service. On an open stream at most one step is under
    way, and only while [pulling_] is set; while that step can still commit,
    the queue is below the high-water mark. On a closed stream at most one
    commit is due, to an empty queue. *)
Definition invariant (k j : nat) (s : state) : Prop :=
  Forall (fun n => n <= receive_buffer_size) (socket_ s)
  ∧ Forall fits (io_service_ s)
  ∧ if is_open s then
      (loop_steps s + k <= Nat.b2n (pulling_ s))%nat
      ∧ ((0 < commits_due s + length (socket_ s) + j)%nat ->
         data_queue_ s < higher_queue_size_bound)
      ∧ data_queue_ s < higher_queue_size_bound + receive_buffer_size
    else
      data_queue_ s + receive_buffer_size * N.of_nat (commits_due s + j)
      <= receive_buffer_size.

End tls.

(** * Properties *)

(** ** Admin serials and reply handlers *)

Section admin_facts.
Import admin.
Local Open Scope Z_scope.

Lemma wrap32_small z : 0 <= z <= UINT32_MAX -> wrap32 z = z.
Proof. unfold wrap32, UINT32_MAX. intros H. apply Z.mod_small. lia. Qed.

(** The three ways through one turn of the loop. *)
Lemma GetAvailableSerial_from_end b m serial :
  ¬ serial < UINT32_MAX -> GetAvailableSerial_from b m serial = (0, m).
Proof.
  intros H. simp GetAvailableSerial_from.
  destruct (decide (serial < UINT32_MAX)); [lia|reflexivity].
Qed.

Lemma GetAvailableSerial_from_free b m serial :
  serial < UINT32_MAX -> m !! wrap32 (serial + Z.b2z b) = None ->
  GetAvailableSerial_from b m serial =
    (wrap32 (serial + Z.b2z b),
     <[wrap32 (serial + Z.b2z b) := placeholder]> m).
Proof.
  intros H Hm. simp GetAvailableSerial_from.
  destruct (decide (serial < UINT32_MAX)); [|lia]. cbn.
  rewrite Hm. reflexivity.
Qed.

Lemma GetAvailableSerial_from_taken b m serial :
  serial < UINT32_MAX -> is_Some (m !! wrap32 (serial + Z.b2z b)) ->
  GetAvailableSerial_from b m serial =
    GetAvailableSerial_from b m (wrap32 (serial + 1)).
Proof.
  intros H [h Hm]. rewrite GetAvailableSerial_from_equation_1.
  destruct (decide (serial < UINT32_MAX)); [|lia]. cbn.
  rewrite Hm. reflexivity.
Qed.

(** What the loop returns when entered at [serial]: 0 and the table as it
    was when every serial from there on is taken, and otherwise the first
    free one, registered with the placeholder. *)
Lemma GetAvailableSerial_from_spec b m serial :
  0 <= serial <= UINT32_MAX ->
  (GetAvailableSerial_from b m serial = (0, m)
   ∧ ∀ k, serial <= k < UINT32_MAX -> is_Some (m !! (k + Z.b2z b)))
  ∨ ∃ k, serial <= k < UINT32_MAX
      ∧ m !! (k + Z.b2z b) = None
      ∧ (∀ j, serial <= j < k -> is_Some (m !! (j + Z.b2z b)))
      ∧ GetAvailableSerial_from b m serial =
          (k + Z.b2z b, <[k + Z.b2z b := placeholder]> m).
Proof.
  intros Hr. 
  remember (Z.to_nat (UINT32_MAX - serial)) as n eqn:Hn.
  revert serial Hr Hn.
  induction n as [n IH] using lt_wf_ind. intros serial Hr Hn.
  assert (Hb : 0 <= Z.b2z b <= 1) by (destruct b; cbn; lia).
  destruct (decide (serial < UINT32_MAX)) as [Hlt|Hge].
  - assert (Hw : wrap32 (serial + Z.b2z b) = serial + Z.b2z b)
      by (apply wrap32_small; lia).
    destruct (m !! (serial + Z.b2z b)) as [h|] eqn:Hm.
    + rewrite GetAvailableSerial_from_taken
        by (rewrite ?Hw, ?Hm; eauto).
      rewrite wrap32_small by lia.
      destruct (IH (Z.to_nat (UINT32_MAX - (serial + 1))) ltac:(lia)
                   (serial + 1) ltac:(lia) eq_refl)
        as [[He Hall]|(k & Hk & Hfree & Hbelow & He)].
      * left. split; [exact He|]. intros k Hk.
        destruct (decide (k = serial)) as [->|]; [rewrite Hm; eauto|].
        apply Hall. lia.
      * right. exists k. split_and!; [lia|lia|assumption| |assumption].
        intros j Hj.
        destruct (decide (j = serial)) as [->|]; [rewrite Hm; eauto|].
        apply Hbelow. lia.
    + right. exists serial. split_and!; [lia|lia|assumption| |].
      * intros j Hj. lia.
      * rewrite GetAvailableSerial_from_free by (rewrite ?Hw; assumption).
        rewrite Hw. reflexivity.
  - left. split; [apply GetAvailableSerial_from_end; assumption|].
    intros k Hk. lia.
Qed.

Lemma exhausted_table_lookup k :
  3 <= k < UINT32_MAX -> exhausted_table !! k = Some placeholder.
Proof.
  intros Hk. unfold exhausted_table.
  rewrite lookup_gset_to_gmap_Some. split; [|reflexivity].
  rewrite elem_of_list_to_set, elem_of_seqZ. lia.
Qed.

Lemma exhausted_table_lookup_0 : exhausted_table !! 0 = None.
Proof.
  unfold exhausted_table.
  rewrite lookup_gset_to_gmap_None.
  rewrite elem_of_list_to_set, elem_of_seqZ. lia.
Qed.

(** C1 (the code departs from it): the client of an empty table is given
    3 and then 4, and the server of an empty table is given 4, so the
    client is given an odd and an even serial and both sides are given 4. *)
Theorem GetAvailableSerial_client_and_server_collide :
  let client := mkAdmin false 0 ∅ [] in
  let server := mkAdmin true 0 ∅ [] in
  (GetAvailableSerial client).1 = 3
  ∧ (GetAvailableSerial (GetAvailableSerial client).2).1 = 4
  ∧ (GetAvailableSerial server).1 = 4.
Proof.
  cbn zeta. unfold GetAvailableSerial. cbn [is_server_ command_handlers_].
  rewrite (GetAvailableSerial_from_free false ∅ 3) by (vm_compute; eauto).
  cbn [fst snd set_command_handlers is_server_ command_handlers_].
  split; [reflexivity|]. split.
  - rewrite GetAvailableSerial_from_taken by (vm_compute; eauto).
    rewrite GetAvailableSerial_from_free by (vm_compute; eauto).
    reflexivity.
  - rewrite GetAvailableSerial_from_free by (vm_compute; eauto).
    reflexivity.
Qed.

(** C3: when the serial received is [s] and a handler is registered under
    [s], [ExecuteAndRemoveCommandHandler s] posts that handler once, erases
    the entry of [s] and leaves the other entries; calling it again, any
    number of times, posts nothing more. *)
Theorem ExecuteAndRemoveCommandHandler_runs_once a s h :
  command_serial_received_ a = s ->
  command_handlers_ a !! s = Some h ->
  let a' := ExecuteAndRemoveCommandHandler s a in
  io_service a' = io_service a ++ [h]
  ∧ command_handlers_ a' = delete s (command_handlers_ a)
  ∧ command_handlers_ a' !! s = None
  ∧ ∀ n, Nat.iter n (ExecuteAndRemoveCommandHandler s) a' = a'.
Proof.
  intros Hs Hh. cbn zeta.
  assert (He : ExecuteAndRemoveCommandHandler s a =
               EraseHandler s (post h a)).
  { unfold ExecuteAndRemoveCommandHandler. rewrite Hs, Hh. reflexivity. }
  rewrite He. split_and!.
  - reflexivity.
  - reflexivity.
  - cbn. apply lookup_delete_eq.
  - intros n. induction n as [|n IH]; [reflexivity|].
    rewrite Nat.iter_succ, IH.
    unfold ExecuteAndRemoveCommandHandler. cbn.
    rewrite Hs, lookup_delete_eq. reflexivity.
Qed.

Lemma ExecuteAndRemoveCommandHandler_runs_once_witness :
  let a := mkAdmin false 5 {[ 5 := handler 1 ]} [] in
  let a' := ExecuteAndRemoveCommandHandler 5 a in
  command_serial_received_ a = 5
  ∧ command_handlers_ a !! 5 = Some (handler 1)
  ∧ io_service a' = io_service a ++ [handler 1]
  ∧ command_handlers_ a' = delete 5 (command_handlers_ a)
  ∧ command_handlers_ a' !! 5 = None
  ∧ ∀ n, Nat.iter n (ExecuteAndRemoveCommandHandler 5) a' = a'.
Proof.
  cbn zeta. split; [reflexivity|]. split; [vm_compute; reflexivity|].
  apply (ExecuteAndRemoveCommandHandler_runs_once
           (mkAdmin false 5 {[ 5 := handler 1 ]} []) 5 (handler 1)).
  - reflexivity.
  - vm_compute. reflexivity.
Defined.

(** C4 as stated fails on the exhausted table: the call returns 0, which
    it has not registered, and leaves the table as it was. *)
Lemma GetAvailableSerial_exhausted_registers_nothing :
  let a := mkAdmin false 0 exhausted_table [] in
  (GetAvailableSerial a).1 = 0
  ∧ command_handlers_ (GetAvailableSerial a).2 !! (GetAvailableSerial a).1
    = None.
Proof.
  cbn zeta. unfold GetAvailableSerial. cbn [is_server_ command_handlers_].
  destruct (GetAvailableSerial_from_spec false exhausted_table 3)
    as [[He _]|(k & Hk & Hfree & _)].
  - unfold UINT32_MAX. lia.
  - rewrite He. cbn. split; [reflexivity|apply exhausted_table_lookup_0].
  - cbn in Hfree. rewrite exhausted_table_lookup in Hfree by lia.
    discriminate.
Qed.

(** C4, amended: a call that returns a serial other than 0 returns one of
    the serials the loop tries, which had no handler, and registers it with
    the placeholder, so that no call returns it while it is registered; a
    call returns 0 only when every serial the loop tries is registered, and
    then leaves the table as it was. *)
Theorem GetAvailableSerial_fresh_or_exhausted a :
  let s := (GetAvailableSerial a).1 in
  let a' := (GetAvailableSerial a).2 in
  let b := Z.b2z (is_server_ a) in
  (3 + b <= s < UINT32_MAX + b
   ∧ command_handlers_ a !! s = None
   ∧ a' = InsertHandler s placeholder a
   ∧ command_handlers_ a' !! s = Some placeholder
   ∧ ∀ a2, is_Some (command_handlers_ a2 !! s) ->
           (GetAvailableSerial a2).1 ≠ s)
  ∨ (s = 0 ∧ a' = a
     ∧ ∀ k, 3 <= k < UINT32_MAX -> is_Some (command_handlers_ a !! (k + b))).
Proof.
  cbn zeta. unfold GetAvailableSerial.
  destruct (GetAvailableSerial_from_spec (is_server_ a) (command_handlers_ a) 3)
    as [[He Hall]|(k & Hk & Hfree & _ & He)].
  - unfold UINT32_MAX. lia.
  - right. rewrite He. cbn. split; [reflexivity|]. split; [|exact Hall].
    destruct a; reflexivity.
  - left. rewrite He. cbn [fst snd].
    assert (Hb : 0 <= Z.b2z (is_server_ a) <= 1)
      by (destruct (is_server_ a); cbn; lia).
    split; [lia|]. split; [exact Hfree|]. split; [reflexivity|].
    split; [cbn; apply lookup_insert_eq|].
    intros a2 Hreg Heq.
    destruct (GetAvailableSerial_from_spec (is_server_ a2)
                (command_handlers_ a2) 3)
      as [[He2 _]|(k2 & Hk2 & Hfree2 & _ & He2)].
    + unfold UINT32_MAX. lia.
    + rewrite He2 in Heq. cbn in Heq. lia.
    + rewrite He2 in Heq. cbn in Heq. rewrite Heq in Hfree2.
      rewrite Hfree2 in Hreg. destruct Hreg as [? ?]. discriminate.
Qed.

Lemma GetAvailableSerial_fresh_or_exhausted_witness :
  let a := mkAdmin false 0 {[ 3 := handler 7 ]} [] in
  (GetAvailableSerial a).1 = 4
  ∧ command_handlers_ a !! 4 = None
  ∧ command_handlers_ (GetAvailableSerial a).2 !! 4 = Some placeholder.
Proof.
  cbn zeta.
  assert (He : (GetAvailableSerial
                  (mkAdmin false 0 {[ 3 := handler 7 ]} [])).1 = 4).
  { unfold GetAvailableSerial. cbn [is_server_ command_handlers_].
    rewrite GetAvailableSerial_from_taken by (vm_compute; eauto).
    rewrite GetAvailableSerial_from_free by (vm_compute; eauto).
    reflexivity. }
  destruct (GetAvailableSerial_fresh_or_exhausted
              (mkAdmin false 0 {[ 3 := handler 7 ]} []))
    as [(_ & H1 & _ & H2 & _)|(H0 & _)].
  - rewrite He in H1, H2. split_and!; [exact He|exact H1|exact H2].
  - rewrite He in H0. discriminate.
Defined.

End admin_facts.

(** ** Endpoints of the link layers *)

Section layer_facts.
Import layer.
Local Open Scope Z_scope.

Context {tcp_endpoint ProxyEndpointContext TLSContext : Type}.
Variable make_tcp_endpoint :
  LayerParameters -> error_code -> tcp_endpoint * error_code.
Variable MakeProxyContext :
  LayerParameters -> error_code -> ProxyEndpointContext * error_code.
Variable acceptor_endpoint : ProxyEndpointContext -> bool.
Variable UpdateRemoteHost :
  ProxyEndpointContext -> LayerParameters -> ProxyEndpointContext * bool.
Variable make_tls_context : LayerParameters -> option TLSContext.
Variable invalid_argument : Z.

Let proxy := basic_ProxyProtocol MakeProxyContext acceptor_endpoint
                                 UpdateRemoteHost.

(** C2, amended. Each layer builds its own part from the parameter set at
    the position it is given, and from no later one but for the remote host
    of a connecting proxy:
    - [tcp] makes its endpoint from that set; it has no next layer;
    - [basic_tls] makes its context from that set and signals
      [invalid_argument] when none can be made, else leaves the code;
    - the proxy layer makes its context from that set; when that signals an
      error it returns the empty endpoint with that error; an endpoint with
      a next endpoint in it has the one the next layer builds from the
      remaining sets, with the error code that layer leaves; a context that
      is not an acceptor's and takes the remote host from the next set
      gives the endpoint of the context alone; in the other cases the
      result is the one built on the next layer's. *)
Theorem make_endpoint_by_layer :
  (∀ parameters rest lower ec,
     @make_endpoint (tcp make_tcp_endpoint) (parameters :: rest) lower ec
     = Some (make_tcp_endpoint parameters ec))
  ∧ (∀ parameters rest lower ec,
       make_tls_context parameters = None ->
       make_endpoint_context make_tls_context invalid_argument
                             (parameters :: rest) lower ec
       = Some (None, mk_error_code invalid_argument ssf_category))
  ∧ (∀ parameters rest lower ec context,
       make_tls_context parameters = Some context ->
       make_endpoint_context make_tls_context invalid_argument
                             (parameters :: rest) lower ec
       = Some (Some context, ec))
  ∧ (∀ NextLayer parameters rest lower ec,
       failed (MakeProxyContext parameters ec).2 = true ->
       @make_endpoint (proxy NextLayer) (parameters :: rest) lower ec
       = Some (endpoint_empty, (MakeProxyContext parameters ec).2))
  ∧ (∀ NextLayer parameters rest lower ec context next ec',
       @make_endpoint (proxy NextLayer) (parameters :: rest) lower ec
       = Some (endpoint_of_next context next, ec') ->
       @make_endpoint NextLayer rest 6 (MakeProxyContext parameters ec).2
       = Some (next, ec'))
  ∧ (∀ NextLayer parameters next_parameters rest lower ec,
       let context := (MakeProxyContext parameters ec).1 in
       let ec1 := (MakeProxyContext parameters ec).2 in
       failed ec1 = false ->
       acceptor_endpoint context = false ->
       (UpdateRemoteHost context next_parameters).2 = true ->
       @make_endpoint (proxy NextLayer)
                      (parameters :: next_parameters :: rest) lower ec
       = Some (endpoint_of_context
                 (UpdateRemoteHost context next_parameters).1, ec1))
  ∧ (∀ NextLayer parameters next_parameters rest lower ec,
       let context := (MakeProxyContext parameters ec).1 in
       let ec1 := (MakeProxyContext parameters ec).2 in
       failed ec1 = false ->
       acceptor_endpoint context = true
       ∨ (UpdateRemoteHost context next_parameters).2 = false ->
       @make_endpoint (proxy NextLayer)
                      (parameters :: next_parameters :: rest) lower ec
       = match @make_endpoint NextLayer (next_parameters :: rest) 6 ec1 with
         | Some (next, ec2) =>
             Some (endpoint_of_next
                     (if acceptor_endpoint context then context
                      else (UpdateRemoteHost context next_parameters).1)
                     next, ec2)
         | None => None
         end).
Proof.
  unfold proxy. split_and!.
  - reflexivity.
  - intros parameters rest lower ec H. cbn. rewrite H. reflexivity.
  - intros parameters rest lower ec context H. cbn. rewrite H. reflexivity.
  - intros NextLayer parameters rest lower ec H. cbn.
    destruct (MakeProxyContext parameters ec) as [context ec1]. cbn in *.
    rewrite H. reflexivity.
  - intros NextLayer parameters rest lower ec context next ec' H. cbn in H.
    destruct (MakeProxyContext parameters ec) as [context1 ec1]. cbn.
    destruct (failed ec1); [discriminate|].
    destruct (acceptor_endpoint context1); cbn in H.
    + destruct (make_endpoint rest 6 ec1) as [[n e]|]; cbn in H;
        [|discriminate].
      congruence.
    + destruct rest as [|next_parameters rest]; [discriminate|]. cbn in H.
      destruct (UpdateRemoteHost context1 next_parameters) as [c [|]];
        [discriminate|].
      destruct (make_endpoint (next_parameters :: rest) 6 ec1) as [[n e]|];
        cbn in H; [|discriminate].
      congruence.
  - intros NextLayer parameters next_parameters rest lower ec. cbn.
    destruct (MakeProxyContext parameters ec) as [context ec1]. cbn.
    intros Hf Ha Hu. rewrite Hf, Ha. cbn.
    destruct (UpdateRemoteHost context next_parameters) as [c u].
    cbn in *. rewrite Hu. reflexivity.
  - intros NextLayer parameters next_parameters rest lower ec. cbn.
    destruct (MakeProxyContext parameters ec) as [context ec1]. cbn.
    intros Hf [Ha|Hu]; rewrite Hf.
    + rewrite Ha. cbn.
      destruct (make_endpoint (next_parameters :: rest) 6 ec1) as [[n e]|];
        reflexivity.
    + destruct (acceptor_endpoint context); cbn.
      * destruct (make_endpoint (next_parameters :: rest) 6 ec1) as [[n e]|];
          reflexivity.
      * destruct (UpdateRemoteHost context next_parameters) as [c u].
        cbn in *. rewrite Hu.
        destruct (make_endpoint (next_parameters :: rest) 6 ec1) as [[n e]|];
          reflexivity.
Qed.

End layer_facts.

(** C2 as stated fails for the proxy layer: for a connecting proxy whose
    context takes the remote host from the next parameter set, the endpoint
    is that of the context alone and holds no endpoint of the next layer,
    although the next layer would build one from the remaining set. *)
Lemma proxy_make_endpoint_without_next :
  let stack := [layer.connecting.proxy_parameters;
                layer.connecting.tcp_parameters] in
  @layer.make_endpoint layer.connecting.proxy_over_tcp stack 0 success
  = Some (layer.endpoint_of_context
            (layer.connecting.mk false (Some layer.connecting.tcp_parameters)),
          success)
  ∧ @layer.make_endpoint (layer.tcp layer.connecting.make_tcp_endpoint)
                         (tail stack) 6 success
    = Some (layer.connecting.tcp_parameters, success).
Proof. split; reflexivity. Qed.

Lemma make_endpoint_by_layer_witness :
  @layer.make_endpoint layer.connecting.proxy_over_tcp
     [layer.connecting.proxy_parameters; layer.connecting.tcp_parameters]
     0 success
  = Some (layer.endpoint_of_context
            (layer.connecting.mk false (Some layer.connecting.tcp_parameters)),
          success).
Proof.
  pose proof (@make_endpoint_by_layer _ _ unit
                layer.connecting.make_tcp_endpoint
                layer.connecting.MakeProxyContext
                layer.connecting.acceptor_endpoint
                layer.connecting.UpdateRemoteHost
                (fun _ => None) 22%Z) as (_ & _ & _ & _ & _ & H & _).
  apply (H (layer.tcp layer.connecting.make_tcp_endpoint)
           layer.connecting.proxy_parameters layer.connecting.tcp_parameters
           [] 0%Z success); reflexivity.
Defined.

(** ** Proxy settings *)

(** C10: [HttpProxy::IsSet] holds exactly when host and port are both
    non-empty, and [SocksProxy::IsSet] exactly when moreover the version is
    not [kVUnknown]. *)
Theorem IsSet_iff_fully_addressed :
  (∀ p : config.HttpProxy.HttpProxy,
     config.HttpProxy.IsSet p = true
     ↔ config.HttpProxy.host_ p ≠ "" ∧ config.HttpProxy.port_ p ≠ "")
  ∧ (∀ p : config.SocksProxy.SocksProxy,
       config.SocksProxy.IsSet p = true
       ↔ config.SocksProxy.version_ p ≠ config.kVUnknown
         ∧ config.SocksProxy.host_ p ≠ ""
         ∧ config.SocksProxy.port_ p ≠ "").
Proof.
  assert (He : ∀ s : string, negb (config.empty s) = true ↔ s ≠ "").
  { intros [|c s]; cbn; split; congruence. }
  split; intros p.
  - unfold config.HttpProxy.IsSet.
    rewrite andb_true_iff, !He. reflexivity.
  - unfold config.SocksProxy.IsSet.
    rewrite !andb_true_iff, !He, negb_true_iff, bool_decide_eq_false.
    tauto.
Qed.

(** ** The buffered TLS stream *)

Section tls_facts.
Import tls.
Local Open Scope N_scope.

Lemma inspect_case {A} (x : A) (P : {y : A | x = y} -> Prop) :
  (∀ y e, P (exist _ y e)) -> P (Logic.inspect x).
Proof. intros H. apply H. Qed.

(** [handle_data_n_ops] as the source has it: one turn, then itself. *)
Lemma handle_data_n_ops_eq s :
  handle_data_n_ops s =
    if failed (status_ s) then
      match op_queue_ s with
      | [] => s
      | op :: ops =>
          handle_data_n_ops (post (do_complete_status op) (set_op_queue_ ops s))
      end
    else
      let s1 := restart_pulling s in
      match op_queue_ s1 with
      | [] => s1
      | op :: ops =>
          if negb (data_queue_ s1 =? 0) then
            handle_data_n_ops
              (post (do_complete op success (fill_buffer op (data_queue_ s1)).1)
                    (set_data_queue_ (fill_buffer op (data_queue_ s1)).2
                                     (set_op_queue_ ops s1)))
          else s1
      end.
Proof.
  rewrite handle_data_n_ops_equation_1.
  destruct (failed (status_ s)); cbn.
  - pattern (Logic.inspect (op_queue_ s)). apply inspect_case.
    intros [|op ops] e; rewrite e; reflexivity.
  - pattern (Logic.inspect (op_queue_ (restart_pulling s))).
    apply inspect_case.
    intros [|op ops] e; rewrite e; [reflexivity|]. cbn.
    destruct (data_queue_ (restart_pulling s) =? 0); reflexivity.
Qed.

Lemma restart_pulling_fields s :
  status_ (restart_pulling s) = status_ s
  ∧ data_queue_ (restart_pulling s) = data_queue_ s
  ∧ op_queue_ (restart_pulling s) = op_queue_ s
  ∧ socket_ (restart_pulling s) = socket_ s
  ∧ is_open (restart_pulling s) = is_open s
  ∧ called (restart_pulling s) = called s
  ∧ pulling_ (restart_pulling s)
    = pulling_ s || (data_queue_ s <? lower_queue_size_bound).
Proof.
  unfold restart_pulling, start_pulling.
  destruct (data_queue_ s <? lower_queue_size_bound), (pulling_ s) eqn:Hp;
    cbn; rewrite ?Hp; split_and!; reflexivity.
Qed.

(** With a saved error, [handle_data_n_ops] empties the operation queue and
    posts, for each operation and in their order, its completion with the
    status; nothing else changes. *)
Lemma handle_data_n_ops_failed s :
  failed (status_ s) = true ->
  handle_data_n_ops s =
    set_op_queue_ []
      (set_io_service_ (io_service_ s ++ map do_complete_status (op_queue_ s)) s).
Proof.
  remember (op_queue_ s) as q eqn:Hq. revert s Hq.
  induction q as [|op ops IH]; intros s Hq Hf.
  - rewrite handle_data_n_ops_eq, Hf, <- Hq.
    destruct s; cbn in *. subst. rewrite app_nil_r. reflexivity.
  - rewrite handle_data_n_ops_eq, Hf, <- Hq.
    rewrite IH by (try reflexivity; exact Hf).
    destruct s; cbn in *. rewrite <- app_assoc. reflexivity.
Qed.

(** Without a saved error, [handle_data_n_ops] keeps the status, does not
    grow the queue, and leaves the bufferer pulling exactly when it was
    pulling or it has seen less than the low-water mark in the queue. *)
Lemma handle_data_n_ops_ok s :
  failed (status_ s) = false ->
  status_ (handle_data_n_ops s) = status_ s
  ∧ data_queue_ (handle_data_n_ops s) <= data_queue_ s
  ∧ (pulling_ (handle_data_n_ops s) = true
     ↔ pulling_ s = true
       ∨ data_queue_ (handle_data_n_ops s) < lower_queue_size_bound).
Proof.
  remember (length (op_queue_ s)) as n eqn:Hn. revert s Hn.
  induction n as [|n IH]; intros s Hn Hf;
    rewrite handle_data_n_ops_eq, Hf; cbn zeta;
    destruct (restart_pulling_fields s) as (Hs & Hd & Ho & _ & _ & _ & Hp);
    rewrite Ho, Hd.
  - destruct (op_queue_ s); [|discriminate].
    rewrite Hs, Hd, Hp, orb_true_iff, N.ltb_lt. split_and!; [done|lia|tauto].
  - destruct (op_queue_ s) as [|op ops]; [discriminate|].
    destruct (data_queue_ s =? 0) eqn:Hz; cbn [negb].
    + rewrite Hs, Hd, Hp, orb_true_iff, N.ltb_lt. split_and!; [done|lia|tauto].
    + match goal with |- context [handle_data_n_ops ?x] => set (s2 := x) end.
      assert (E1 : status_ s2 = status_ s) by (cbn; exact Hs).
      assert (E2 : data_queue_ s2 <= data_queue_ s) by (cbn; lia).
      assert (E3 : pulling_ s2
                   = pulling_ s || (data_queue_ s <? lower_queue_size_bound))
        by (cbn; exact Hp).
      assert (E4 : length (op_queue_ s2) = n) by (cbn in *; lia).
      clearbody s2.
      destruct (IH s2) as (Hs2 & Hd2 & Hp2); [done|congruence|].
      split_and!; [congruence|lia|].
      rewrite Hp2, E3, orb_true_iff, N.ltb_lt.
      split; [intros [[?|?]|?]|intros [?|?]]; auto; right; lia.
Qed.

(** C9: [async_read_some] with buffers of total size 0 adds to the
    io_service the call of the handler with success and 0 bytes, and
    changes nothing else: the operation queue, the status and the data
    queue are as they were, whatever they are. That task, run, calls the
    handler with success and 0 bytes; run next, it leaves the bufferer as
    it was before the request but for that call. *)
Theorem async_read_some_no_buffer buffers handler s :
  buffer_size buffers = 0 ->
  io_service_ (async_read_some buffers handler s)
  = io_service_ s ++ [read_handler_task handler success 0]
  ∧ op_queue_ (async_read_some buffers handler s) = op_queue_ s
  ∧ status_ (async_read_some buffers handler s) = status_ s
  ∧ data_queue_ (async_read_some buffers handler s) = data_queue_ s
  ∧ pulling_ (async_read_some buffers handler s) = pulling_ s
  ∧ socket_ (async_read_some buffers handler s) = socket_ s
  ∧ called (async_read_some buffers handler s) = called s
  ∧ (∀ s', called (run_task (read_handler_task handler success 0) s')
           = called s' ++ [(handler, success, 0)])
  ∧ run [call_async_read_some buffers handler;
         run_nth (List.length (io_service_ s))] s
    = Some (mk_state (status_ s) (data_queue_ s) (op_queue_ s) (pulling_ s)
                     (io_service_ s) (socket_ s) (is_open s)
                     (called s ++ [(handler, success, 0)])).
Proof.
  intros H. unfold async_read_some. rewrite H. cbn [N.eqb negb].
  split_and!; try reflexivity.
  cbn [run step]. unfold async_read_some. rewrite H. cbn [N.eqb negb].
  cbn [post io_service_ set_io_service_].
  rewrite lookup_app_r, Nat.sub_diag by lia. cbn [lookup list_lookup].
  rewrite delete_middle, app_nil_r. reflexivity.
Qed.

Lemma async_read_some_no_buffer_witness :
  let s := mk_state (mk_error_code 104 system_category) 4096
                    [mk_op [16] 1] true [handle_data_n_ops_task] [] true [] in
  buffer_size [0; 0] = 0
  ∧ io_service_ (async_read_some [0; 0] 2 s)
    = [handle_data_n_ops_task; read_handler_task 2 success 0]
  ∧ op_queue_ (async_read_some [0; 0] 2 s) = [mk_op [16] 1]
  ∧ run [call_async_read_some [0; 0] 2; run_nth 1] s
    = Some (mk_state (mk_error_code 104 system_category) 4096
                     [mk_op [16] 1] true [handle_data_n_ops_task] [] true
                     [(2%nat, success, 0)]).
Proof.
  cbn zeta. split; [reflexivity|].
  destruct (async_read_some_no_buffer [0; 0] 2
              (mk_state (mk_error_code 104 system_category) 4096
                        [mk_op [16] 1] true [handle_data_n_ops_task] []
                        true []) eq_refl)
    as (H1 & H2 & _ & _ & _ & _ & _ & _ & H9).
  split_and!; [exact H1|exact H2|exact H9].
Defined.

Lemma cancel_ops_eq ops s :
  cancel_ops ops s =
    set_op_queue_ []
      (set_io_service_
         (io_service_ s
          ++ map (fun op => do_complete op operation_aborted_code 0) ops) s).
Proof.
  revert s. induction ops as [|op ops IH]; intros s; cbn.
  - rewrite app_nil_r. destruct s; reflexivity.
  - rewrite IH. cbn. rewrite <- app_assoc. reflexivity.
Qed.

Lemma cancel_eq s :
  cancel s =
    set_op_queue_ []
      (set_io_service_
         (io_service_ s
          ++ map (fun op => do_complete op operation_aborted_code 0)
                 (op_queue_ s))
         (set_data_queue_ 0 (set_pulling_ false s))).
Proof.
  unfold cancel, consume. cbn [data_queue_ set_pulling_].
  rewrite N.min_id, N.sub_diag, cancel_ops_eq. reflexivity.
Qed.

(** C7 as stated fails: after a handshake and a close, [pulling_] is unset
    and the [async_pull_packets] that [start_pulling] posted is still with
    the io_service; once run, it starts a pull read. Likewise the handler
    of a read that completed before the close, run after it, commits to
    the emptied queue and starts the next read. *)
Lemma cancelled_pull_loop_reads_again :
  (∃ s, run [call_handshake success; call_close] create = Some s
        ∧ pulling_ s = false ∧ data_queue_ s = 0
        ∧ io_service_ s = [async_pull_packets_task] ∧ socket_ s = [])
  ∧ (∃ s, run [call_handshake success; call_close; run_nth 0] create = Some s
          ∧ pulling_ s = false ∧ socket_ s = [receive_buffer_size])
  ∧ (∃ s, run [call_handshake success; run_nth 0; read_completes success 100;
               call_close; run_nth 0] create = Some s
          ∧ data_queue_ s = 100 ∧ socket_ s = [receive_buffer_size]).
Proof.
  split_and!; eexists; (split; [vm_compute; reflexivity|]);
    split_and!; reflexivity.
Qed.

(** C7, amended: [cancel] empties the data queue, empties the operation
    queue, posting for each pending operation its completion with
    [operation_aborted] and 0 bytes, and unsets [pulling_]. It starts no
    read and posts nothing else; what the io_service already holds and the
    reads already started stay, and a step of the pull loop that runs after
    it still starts its read: the loop does not test the flag. *)
Theorem cancel_effect s :
  data_queue_ (cancel s) = 0
  ∧ op_queue_ (cancel s) = []
  ∧ pulling_ (cancel s) = false
  ∧ io_service_ (cancel s)
    = io_service_ s
      ++ map (fun op => do_complete op operation_aborted_code 0) (op_queue_ s)
  ∧ (∀ op s', called (run_task (do_complete op operation_aborted_code 0) s')
              = called s' ++ [(op_handler op, operation_aborted_code, 0)])
  ∧ socket_ (cancel s) = socket_ s
  ∧ status_ (cancel s) = status_ s
  ∧ socket_ (async_pull_packets (cancel s))
    = socket_ s ++ [receive_buffer_size].
Proof.
  rewrite cancel_eq. split_and!; reflexivity.
Qed.













(** *** The size of the data queue *)

Lemma sum_list_with_delete {A} (f : A -> nat) (l : list A) i x :
  l !! i = Some x ->
  sum_list_with f l = (f x + sum_list_with f (delete i l))%nat.
Proof.
  revert i. induction l as [|y l IH]; intros [|i] H; try discriminate.
  - injection H as ->. reflexivity.
  - change (sum_list_with f (y :: l) =
            (f x + (f y + sum_list_with f (delete i l)))%nat).
    change (sum_list_with f (y :: l)) with (f y + sum_list_with f l)%nat.
    rewrite (IH i H). lia.
Qed.

Lemma commit_weight_le t : (commit_weight t <= loop_weight t)%nat.
Proof. destruct t as [| |ec ?| | |]; cbn; try lia. destruct (failed ec); lia. Qed.

Lemma commits_due_le s : (commits_due s <= loop_steps s)%nat.
Proof.
  unfold commits_due, loop_steps.
  induction (io_service_ s) as [|t l IH]; cbn; [lia|].
  pose proof (commit_weight_le t). lia.
Qed.

Ltac unfold_bounds :=
  unfold higher_queue_size_bound, lower_queue_size_bound,
         receive_buffer_size in *.

Lemma invariant_weaken k j s : invariant (S k) j s -> invariant k j s.
Proof.
  unfold invariant. intros (H1 & H2 & H3). split_and!; [done..|].
  destruct (is_open s); [|done].
  destruct H3 as (Ha & Hb & Hc). split_and!; [lia|done..].
Qed.

Lemma invariant_post k j t s :
  loop_weight t = 0%nat -> invariant k j s -> invariant k j (post t s).
Proof.
  intros Ht. pose proof (commit_weight_le t) as Hc.
  unfold invariant, loop_steps, commits_due. cbn.
  rewrite !sum_list_with_app, Forall_app, Forall_singleton. cbn.
  intros (H1 & H2 & H3). split_and!; [done|done| |].
  - destruct t; done.
  - replace (commit_weight t) with 0%nat by lia. rewrite Ht, !Nat.add_0_r.
    exact H3.
Qed.

Lemma invariant_shrink k j n s :
  n <= data_queue_ s -> invariant k j s -> invariant k j (set_data_queue_ n s).
Proof.
  unfold invariant, loop_steps, commits_due. cbn.
  intros Hn (H1 & H2 & H3). split_and!; [done..|].
  destruct (is_open s); [|lia].
  destruct H3 as (Ha & Hb & Hc). split_and!; [done| |lia].
  intros H. specialize (Hb H). lia.
Qed.

Lemma invariant_start_pulling j s :
  invariant 0 j s -> invariant 0 j (start_pulling s).
Proof.
  unfold start_pulling. destruct (pulling_ s) eqn:Hp; [done|].
  unfold invariant, loop_steps, commits_due. cbn.
  rewrite !sum_list_with_app, Forall_app, Forall_singleton, Hp. cbn.
  intros (H1 & H2 & H3). split_and!; [done..|].
  destruct (is_open s); [|rewrite Nat.add_0_r; exact H3].
  destruct H3 as (Ha & Hb & Hc). split_and!; [lia| |done].
  intros H. apply Hb. lia.
Qed.

Lemma invariant_restart_pulling j s :
  invariant 0 j s -> invariant 0 j (restart_pulling s).
Proof.
  unfold restart_pulling. destruct (_ && _); [|done].
  apply invariant_start_pulling.
Qed.

Lemma invariant_handle_data_n_ops s :
  invariant 0 0 s -> invariant 0 0 (handle_data_n_ops s).
Proof.
  remember (List.length (op_queue_ s)) as n eqn:Hn. revert s Hn.
  induction n as [|n IH]; intros s Hn H; rewrite handle_data_n_ops_eq.
  - destruct (failed (status_ s)).
    + destruct (op_queue_ s); [done|discriminate].
    + cbn zeta.
      destruct (restart_pulling_fields s) as (_ & _ & -> & _).
      destruct (op_queue_ s); [|discriminate].
      by apply invariant_restart_pulling.
  - destruct (failed (status_ s)).
    + destruct (op_queue_ s) as [|op ops] eqn:Ho; [done|].
      apply IH; [cbn in *; lia|].
      by apply invariant_post.
    + cbn zeta.
      pose proof (invariant_restart_pulling _ _ H) as H'.
      destruct (restart_pulling_fields s) as (_ & Hd & Ho & _).
      rewrite Ho in *.
      destruct (op_queue_ s) as [|op ops] eqn:Hq; [done|].
      destruct (negb _); [|done].
      apply IH; [cbn in *; lia|].
      apply invariant_post; [done|].
      apply invariant_shrink; [cbn; lia|].
      exact H'.
Qed.

Lemma invariant_async_pull_packets s :
  invariant 1 0 s -> invariant 0 0 (async_pull_packets s).
Proof.
  pose proof (commits_due_le s) as Hle.
  unfold async_pull_packets.
  destruct (N.ltb_spec (data_queue_ s) higher_queue_size_bound) as [Hlt|Hge];
    unfold invariant, loop_steps, commits_due in *; cbn.
  - rewrite Forall_app, Forall_singleton, length_app. cbn.
    intros (H1 & H2 & H3). split_and!; [done|done|done|].
    destruct (is_open s); [|lia].
    destruct H3 as (Ha & Hb & Hc). split_and!; [lia|done|done].
  - intros (H1 & H2 & H3). split_and!; [done..|].
    destruct (is_open s); [|lia].
    destruct H3 as (Ha & Hb & Hc).
    destruct (pulling_ s); cbn in *; split_and!; [lia| |done|lia| |done];
      intros H; lia.
Qed.

Lemma invariant_cancel s :
  invariant 1 0 s -> invariant 0 0 (cancel s).
Proof.
  pose proof (commits_due_le s) as Hle.
  rewrite cancel_eq.
  unfold invariant, loop_steps, commits_due in *; cbn.
  rewrite !sum_list_with_app, Forall_app.
  assert (Hw : ∀ f, (∀ t, (f t <= loop_weight t)%nat) ->
      sum_list_with f (map (fun op => do_complete op operation_aborted_code 0)
                           (op_queue_ s)) = 0%nat).
  { intros f Hf. induction (op_queue_ s) as [|op ops IH]; [done|].
    cbn. rewrite IH. specialize (Hf (do_complete op operation_aborted_code 0)).
    cbn in Hf. lia. }
  rewrite (Hw loop_weight) by (intros; lia).
  rewrite (Hw commit_weight) by apply commit_weight_le.
  intros (H1 & H2 & H3). split_and!; [done|done| |].
  - rewrite Forall_map. by apply Forall_true.
  - unfold_bounds. destruct (is_open s).
    + destruct H3 as (Ha & Hb & Hc).
      destruct (pulling_ s); cbn in *; split_and!; lia.
    + lia.
Qed.

Lemma invariant_close s :
  invariant 0 0 s -> invariant 0 0 (close s).
Proof.
  pose proof (commits_due_le s) as Hle.
  unfold close. rewrite cancel_eq.
  unfold invariant, loop_steps, commits_due in *; cbn.
  rewrite !sum_list_with_app, Forall_app.
  assert (Hw : sum_list_with commit_weight
      (map (fun op => do_complete op operation_aborted_code 0) (op_queue_ s))
      = 0%nat).
  { induction (op_queue_ s) as [|op ops IH]; [done|]. cbn. exact IH. }
  rewrite Hw.
  intros (H1 & H2 & H3). split_and!; [done|done| |].
  - rewrite Forall_map. by apply Forall_true.
  - unfold_bounds. destruct (is_open s).
    + destruct H3 as (Ha & Hb & Hc). destruct (pulling_ s); cbn in *; lia.
    + lia.
Qed.

Lemma invariant_pull_handler ec length s :
  fits (pull_handler_task ec length) ->
  invariant 1 (commit_weight (pull_handler_task ec length)) s ->
  invariant 0 0 (pull_handler ec length s).
Proof.
  intros Hfit H. unfold pull_handler. apply invariant_handle_data_n_ops.
  cbn in Hfit, H. destruct (failed ec) eqn:Hf; cbn [negb].
  - destruct (value ec =? operation_aborted)%Z.
    + by apply invariant_cancel.
    + apply invariant_weaken.
      unfold consume. rewrite N.min_id, N.sub_diag.
      apply (invariant_shrink 1 0 0 s); [lia|exact H].
  - specialize (Hfit eq_refl).
    assert (H' : invariant 1 0 (commit length s)).
    { pose proof (commits_due_le s) as Hle.
      unfold invariant, loop_steps, commits_due in *. cbn.
      destruct H as (H1 & H2 & H3). split_and!; [done..|].
      unfold_bounds. destruct (is_open s).
      - destruct H3 as (Ha & Hb & Hc).
        assert (data_queue_ s < 16 * 1024 * 1024) by (apply Hb; lia).
        destruct (pulling_ s); cbn in *; split_and!; lia.
      - lia. }
    destruct (negb _).
    + by apply invariant_async_pull_packets.
    + by apply invariant_weaken.
Qed.

Lemma invariant_take s i t :
  io_service_ s !! i = Some t ->
  invariant 0 0 s ->
  fits t
  ∧ invariant (loop_weight t) (commit_weight t)
              (set_io_service_ (delete i (io_service_ s)) s).
Proof.
  intros Hi (H1 & H2 & H3). split.
  - rewrite Forall_lookup in H2. by apply (H2 i).
  - unfold invariant, loop_steps, commits_due in *. cbn.
    rewrite (sum_list_with_delete loop_weight _ _ _ Hi) in H3.
    rewrite (sum_list_with_delete commit_weight _ _ _ Hi) in H3.
    split_and!; [done|by apply Forall_delete|].
    destruct (is_open s).
    + destruct H3 as (Ha & Hb & Hc). split_and!; [lia| |done].
      intros H. apply Hb. lia.
    + rewrite !Nat.add_0_r in H3.
      by rewrite (Nat.add_comm _ (commit_weight t)).
Qed.

Lemma invariant_run_task t s :
  fits t -> invariant (loop_weight t) (commit_weight t) s ->
  invariant 0 0 (run_task t s).
Proof.
  intros Hfit H. destruct t; cbn [run_task].
  - by apply invariant_async_pull_packets.
  - by apply invariant_handle_data_n_ops.
  - by apply invariant_pull_handler.
  - exact H.
  - exact H.
  - exact H.
Qed.

Lemma invariant_step e s s' :
  step e s = Some s' -> invariant 0 0 s -> invariant 0 0 s'.
Proof.
  destruct e as [ec|buffers handler| |i|ec length]; cbn; intros He H.
  - injection He as <-. unfold handshake.
    destruct (negb _); [by apply invariant_start_pulling|done].
  - injection He as <-. unfold async_read_some.
    destruct (negb _); by apply invariant_post.
  - injection He as <-. by apply invariant_close.
  - destruct (io_service_ s !! i) as [t|] eqn:Hi; [|discriminate].
    injection He as <-.
    destruct (invariant_take s i t Hi H). by apply invariant_run_task.
  - destruct (socket_ s) as [|n reads] eqn:Hs; [discriminate|].
    destruct (negb (failed ec) && negb (is_open s && (length <=? n))) eqn:Hg;
      [discriminate|].
    injection He as <-.
    unfold invariant, loop_steps, commits_due in *. cbn.
    rewrite Hs in H. cbn in H.
    rewrite !sum_list_with_app, Forall_app, Forall_singleton. cbn.
    destruct H as (H1 & H2 & H3).
    apply Forall_cons in H1 as [Hn H1].
    split_and!; [done|done| |].
    + intros Hf. rewrite Hf in Hg. cbn in Hg.
      apply negb_false_iff, andb_true_iff in Hg as [_ Hg].
      apply N.leb_le in Hg. lia.
    + destruct (is_open s) eqn:Ho.
      * destruct H3 as (Ha & Hb & Hc). split_and!; [lia| |done].
        intros _. apply Hb. lia.
      * destruct (failed ec); [|discriminate]. cbn.
        rewrite !Nat.add_0_r in *. exact H3.
Qed.

Lemma invariant_create : invariant 0 0 create.
Proof.
  unfold invariant. cbn. split_and!; [constructor|constructor|lia|done|done].
Qed.

Lemma invariant_run events s s' :
  run events s = Some s' -> invariant 0 0 s -> invariant 0 0 s'.
Proof.
  revert s. induction events as [|e events IH]; intros s; cbn.
  - intros [= <-]. done.
  - destruct (step e s) as [s1|] eqn:He; [|discriminate].
    intros Hr H. apply (IH s1 Hr). by apply (invariant_step e s).
Qed.

(** C5: whatever the user, the io_service and the TLS stream do, from the
    state the constructor leaves, the data queue holds less than the
    high-water mark and one receive buffer together: every read started has
    a buffer of at most [receive_buffer_size], and while a read is under
    way on the open stream the queue is below the high-water mark. *)
Theorem data_queue_below_high_water_and_a_record events s :
  run events create = Some s ->
  data_queue_ s < higher_queue_size_bound + receive_buffer_size
  ∧ Forall (fun n => n <= receive_buffer_size) (socket_ s)
  ∧ (is_open s = true -> socket_ s ≠ [] ->
     data_queue_ s < higher_queue_size_bound).
Proof.
  intros Hr.
  destruct (invariant_run events create s Hr invariant_create)
    as (H1 & _ & H).
  unfold_bounds. destruct (is_open s).
  - destruct H as (_ & Hb & Hc). split_and!; [exact Hc|exact H1|].
    intros _ Hs. apply Hb. destruct (socket_ s); [done|cbn; lia].
  - split_and!; [lia|exact H1|discriminate].
Qed.

Lemma data_queue_below_high_water_and_a_record_witness :
  let events := [call_handshake success; run_nth 0;
                 read_completes success 51200; run_nth 0;
                 call_async_read_some [1024] 1; run_nth 0] in
  ∃ s, run events create = Some s
       ∧ data_queue_ s = 50176
       ∧ data_queue_ s < higher_queue_size_bound + receive_buffer_size
       ∧ Forall (fun n => n <= receive_buffer_size) (socket_ s)
       ∧ (is_open s = true -> socket_ s ≠ [] ->
          data_queue_ s < higher_queue_size_bound).
Proof.
  cbn zeta. eexists. split; [vm_compute; reflexivity|].
  split; [reflexivity|].
  apply (data_queue_below_high_water_and_a_record
           [call_handshake success; run_nth 0;
            read_completes success 51200; run_nth 0;
            call_async_read_some [1024] 1; run_nth 0]).
  vm_compute. reflexivity.
Defined.

End tls_facts.

(** * Further properties *)

(** ** The admin handler table *)

Section admin_more_facts.
Import admin.
Local Open Scope Z_scope.

(** The two outcomes of [GetAvailableSerial], with what the loop has seen
    on its way. *)
Lemma GetAvailableSerial_cases a :
  let b := Z.b2z (is_server_ a) in
  (∃ s, GetAvailableSerial a = (s, InsertHandler s placeholder a)
        ∧ 3 + b <= s < UINT32_MAX + b
        ∧ command_handlers_ a !! s = None
        ∧ ∀ k, 3 + b <= k < s -> is_Some (command_handlers_ a !! k))
  ∨ (GetAvailableSerial a = (0, a)
     ∧ ∀ k, 3 + b <= k < UINT32_MAX + b ->
            is_Some (command_handlers_ a !! k)).
Proof.
  cbn zeta. unfold GetAvailableSerial.
  assert (Hb : 0 <= Z.b2z (is_server_ a) <= 1)
    by (destruct (is_server_ a); cbn; lia).
  destruct (GetAvailableSerial_from_spec (is_server_ a) (command_handlers_ a) 3)
    as [[He Hall]|(k & Hk & Hfree & Hbelow & He)].
  - unfold UINT32_MAX. lia.
  - right. rewrite He. cbn. split; [destruct a; reflexivity|].
    intros k Hk. replace k with (k - Z.b2z (is_server_ a)
                                 + Z.b2z (is_server_ a)) by lia.
    apply Hall. lia.
  - left. exists (k + Z.b2z (is_server_ a)). rewrite He. cbn [fst snd].
    split_and!; [reflexivity|lia|lia|exact Hfree|].
    intros j Hj. replace j with (j - Z.b2z (is_server_ a)
                                 + Z.b2z (is_server_ a)) by lia.
    apply Hbelow. lia.
Qed.

Lemma GetAvailableSerial_client_3 r io :
  GetAvailableSerial (mkAdmin false r ∅ io)
  = (3, mkAdmin false r {[ 3 := placeholder ]} io).
Proof.
  unfold GetAvailableSerial. cbn [is_server_ command_handlers_].
  rewrite GetAvailableSerial_from_free by (vm_compute; eauto).
  reflexivity.
Qed.

Lemma GetAvailableSerial_client_4 r io h :
  GetAvailableSerial (mkAdmin false r {[ 3 := h ]} io)
  = (4, mkAdmin false r (<[ 4 := placeholder ]> {[ 3 := h ]}) io).
Proof.
  unfold GetAvailableSerial. cbn [is_server_ command_handlers_].
  rewrite GetAvailableSerial_from_taken
    by (first [by vm_compute | cbn; rewrite lookup_singleton_eq; eauto]).
  rewrite GetAvailableSerial_from_free
    by (first [by vm_compute
              | cbn; apply lookup_singleton_ne; by vm_compute]).
  reflexivity.
Qed.

Lemma GetAvailableSerial_client_none_free r m io :
  (∀ k, 3 <= k < UINT32_MAX -> is_Some (m !! k)) ->
  GetAvailableSerial (mkAdmin false r m io) = (0, mkAdmin false r m io).
Proof.
  intros Hall.
  destruct (GetAvailableSerial_cases (mkAdmin false r m io))
    as [(s & _ & Hs & Hfree & _)|[He _]]; [|exact He].
  cbn in Hs, Hfree. destruct (Hall s) as [h Hh]; [lia|]. congruence.
Qed.

Lemma GetAvailableSerial_exhausted r io :
  GetAvailableSerial (mkAdmin false r exhausted_table io)
  = (0, mkAdmin false r exhausted_table io).
Proof.
  apply GetAvailableSerial_client_none_free.
  intros k Hk. rewrite exhausted_table_lookup by exact Hk. eauto.
Qed.

(** X1: the serial [GetAvailableSerial] returns, when not 0, is the least
    one free among those it tries: every serial from [3 + is_server_] up to
    it is registered. *)
Theorem GetAvailableSerial_least a k :
  (GetAvailableSerial a).1 ≠ 0 ->
  3 + Z.b2z (is_server_ a) <= k < (GetAvailableSerial a).1 ->
  is_Some (command_handlers_ a !! k).
Proof.
  destruct (GetAvailableSerial_cases a)
    as [(s & He & _ & _ & Hbelow)|[He _]]; rewrite He; cbn; [|done].
  intros _ Hk. by apply Hbelow.
Qed.

Lemma GetAvailableSerial_least_witness :
  let a := mkAdmin false 0 {[ 3 := handler 7 ]} [] in
  (GetAvailableSerial a).1 ≠ 0
  ∧ 3 + Z.b2z (is_server_ a) <= 3 < (GetAvailableSerial a).1
  ∧ is_Some (command_handlers_ a !! 3).
Proof.
  cbn zeta.
  assert (H1 : (GetAvailableSerial (mkAdmin false 0 {[ 3 := handler 7 ]} [])).1
               ≠ 0) by (rewrite GetAvailableSerial_client_4; done).
  assert (H2 : 3 + Z.b2z (is_server_ (mkAdmin false 0 {[ 3 := handler 7 ]} []))
               <= 3
               < (GetAvailableSerial
                    (mkAdmin false 0 {[ 3 := handler 7 ]} [])).1)
    by (rewrite GetAvailableSerial_client_4; cbn; lia).
  split; [exact H1|]. split; [exact H2|].
  exact (GetAvailableSerial_least _ 3 H1 H2).
Defined.

(** X2: erasing the serial that [GetAvailableSerial] has just returned
    gives back the admin as it was, so that the next call returns the same
    serial again. *)
Theorem GetAvailableSerial_then_EraseHandler a :
  (GetAvailableSerial a).1 ≠ 0 ->
  EraseHandler (GetAvailableSerial a).1 (GetAvailableSerial a).2 = a
  ∧ (GetAvailableSerial
       (EraseHandler (GetAvailableSerial a).1 (GetAvailableSerial a).2)).1
    = (GetAvailableSerial a).1.
Proof.
  intros Hs.
  assert (He : EraseHandler (GetAvailableSerial a).1 (GetAvailableSerial a).2
               = a).
  { destruct (GetAvailableSerial_cases a)
      as [(s & He & _ & Hfree & _)|[He _]]; rewrite He in Hs |- *; [|done].
    unfold EraseHandler, InsertHandler, set_command_handlers. cbn.
    rewrite delete_insert_id by exact Hfree. destruct a; reflexivity. }
  split; [exact He|]. rewrite He. reflexivity.
Qed.

Lemma GetAvailableSerial_then_EraseHandler_witness :
  let a := mkAdmin false 0 ∅ [] in
  (GetAvailableSerial a).1 ≠ 0
  ∧ EraseHandler (GetAvailableSerial a).1 (GetAvailableSerial a).2 = a.
Proof.
  cbn zeta.
  assert (H1 : (GetAvailableSerial (mkAdmin false 0 ∅ [])).1 ≠ 0)
    by (rewrite GetAvailableSerial_client_3; done).
  split; [exact H1|].
  exact (proj1 (GetAvailableSerial_then_EraseHandler _ H1)).
Defined.

Lemma Command_eq request h a :
  Command request h a
  = (mkAdminCommand (GetAvailableSerial a).1 (command_id request)
       (wrap32 (Z.of_nat (String.length (OnSending request))))
       (OnSending request),
     InsertHandler (GetAvailableSerial a).1 h (GetAvailableSerial a).2).
Proof. unfold Command. destruct (GetAvailableSerial a). reflexivity. Qed.

(** X3: a [Command] sent with a serial other than 0, then answered: when
    the serial received is that of the command and the table is as
    [Command] left it, [ExecuteAndRemoveCommandHandler] posts the handler
    given to [Command], and not the placeholder, and leaves the table as it
    was before the command. *)
Theorem Command_then_reply request h a a2 x :
  command_serial (Command request h a).1 ≠ 0 ->
  command_handlers_ a2 = command_handlers_ (Command request h a).2 ->
  command_serial_received_ a2 = command_serial (Command request h a).1 ->
  io_service (ExecuteAndRemoveCommandHandler x a2) = io_service a2 ++ [h]
  ∧ command_handlers_ (ExecuteAndRemoveCommandHandler x a2)
    = command_handlers_ a.
Proof.
  rewrite Command_eq. cbn [fst snd command_serial].
  destruct (GetAvailableSerial_cases a)
    as [(s & He & _ & Hfree & _)|[He _]]; rewrite He; cbn [fst snd]; [|done].
  intros _ Ht Hr. unfold ExecuteAndRemoveCommandHandler.
  rewrite Hr, Ht. cbn. rewrite lookup_insert_eq. cbn.
  split; [reflexivity|].
  rewrite Ht. cbn. rewrite insert_insert_eq, delete_insert_id; done.
Qed.

Lemma Command_then_reply_witness :
  let a := mkAdmin false 0 ∅ [] in
  let request := mkRequest 2 "stop" in
  let a2 := mkAdmin false 3 (command_handlers_ (Command request (handler 1) a).2)
                    [] in
  command_serial (Command request (handler 1) a).1 ≠ 0
  ∧ io_service (ExecuteAndRemoveCommandHandler 3 a2) = [handler 1]
  ∧ command_handlers_ (ExecuteAndRemoveCommandHandler 3 a2) = ∅.
Proof.
  cbn zeta.
  assert (H1 : command_serial
                 (Command (mkRequest 2 "stop") (handler 1)
                          (mkAdmin false 0 ∅ [])).1 = 3)
    by (rewrite Command_eq, GetAvailableSerial_client_3; reflexivity).
  split; [rewrite H1; done|].
  apply (Command_then_reply (mkRequest 2 "stop") (handler 1)
           (mkAdmin false 0 ∅ [])
           (mkAdmin false 3
              (command_handlers_
                 (Command (mkRequest 2 "stop") (handler 1)
                          (mkAdmin false 0 ∅ [])).2) []) 3).
  - rewrite H1. done.
  - reflexivity.
  - rewrite H1. reflexivity.
Defined.

(** X4: two commands sent one after the other, the first with a serial
    other than 0, carry different serials, and after the second the
    handler of the first is still registered under its serial. *)
Theorem Command_twice r1 h1 r2 h2 a :
  let c1 := Command r1 h1 a in
  let c2 := Command r2 h2 c1.2 in
  command_serial c1.1 ≠ 0 ->
  command_serial c2.1 ≠ command_serial c1.1
  ∧ command_handlers_ c2.2 !! command_serial c1.1 = Some h1
  ∧ command_handlers_ c2.2 !! command_serial c2.1 = Some h2.
Proof.
  cbn zeta. rewrite !Command_eq. cbn [fst snd command_serial].
  set (a1 := InsertHandler (GetAvailableSerial a).1 h1 (GetAvailableSerial a).2).
  intros Hs.
  assert (H1 : command_handlers_ a1 !! (GetAvailableSerial a).1 = Some h1)
    by (subst a1; cbn; apply lookup_insert_eq).
  clearbody a1.
  assert (Hne : (GetAvailableSerial a1).1 ≠ (GetAvailableSerial a).1).
  { destruct (GetAvailableSerial_cases a1)
      as [(s & He & _ & Hfree & _)|[He _]]; rewrite He; cbn [fst snd];
      [|congruence].
    intros ->. rewrite H1 in Hfree. discriminate. }
  split; [exact Hne|].
  cbn [command_handlers_ InsertHandler set_command_handlers].
  rewrite lookup_insert_ne by exact Hne. rewrite lookup_insert_eq.
  split; [|reflexivity].
  destruct (GetAvailableSerial_cases a1)
    as [(s & He & _ & Hfree & _)|[He _]]; rewrite He in Hne |- *;
    cbn [fst snd command_handlers_ InsertHandler set_command_handlers] in *.
  - rewrite lookup_insert_ne by exact Hne. exact H1.
  - exact H1.
Qed.

Lemma Command_twice_witness :
  let a := mkAdmin false 0 ∅ [] in
  let c1 := Command (mkRequest 1 "a") (handler 1) a in
  let c2 := Command (mkRequest 1 "b") (handler 2) c1.2 in
  command_serial c1.1 ≠ 0
  ∧ command_serial c2.1 ≠ command_serial c1.1
  ∧ command_handlers_ c2.2 !! command_serial c1.1 = Some (handler 1)
  ∧ command_handlers_ c2.2 !! command_serial c2.1 = Some (handler 2).
Proof.
  cbn zeta.
  assert (H1 : command_serial
                 (Command (mkRequest 1 "a") (handler 1)
                          (mkAdmin false 0 ∅ [])).1 ≠ 0)
    by (rewrite Command_eq, GetAvailableSerial_client_3; done).
  split; [exact H1|].
  exact (Command_twice (mkRequest 1 "a") (handler 1) (mkRequest 1 "b")
           (handler 2) (mkAdmin false 0 ∅ []) H1).
Defined.

(** X5: when every serial the loop tries is registered, [Command] sends
    its command with serial 0 and registers its handler under 0 in place
    of any handler that was there: of two such commands in a row, only the
    handler of the second stays registered. *)
Theorem Command_exhausted r1 h1 r2 h2 a :
  (GetAvailableSerial a).1 = 0 ->
  let c1 := Command r1 h1 a in
  let c2 := Command r2 h2 c1.2 in
  command_serial c1.1 = 0
  ∧ command_handlers_ c1.2 = <[0 := h1]> (command_handlers_ a)
  ∧ command_serial c2.1 = 0
  ∧ command_handlers_ c2.2 = <[0 := h2]> (command_handlers_ a).
Proof.
  intros H0. cbn zeta. rewrite !Command_eq. cbn [fst snd command_serial].
  destruct (GetAvailableSerial_cases a)
    as [(s & He & Hs & _)|[He Hall]]; rewrite He in H0 |- *; cbn in H0.
  { destruct (is_server_ a); cbn in Hs; lia. }
  cbn [fst snd]. set (a1 := InsertHandler 0 h1 a).
  assert (He1 : GetAvailableSerial a1 = (0, a1)).
  { destruct (GetAvailableSerial_cases a1)
      as [(s & _ & Hs & Hfree & _)|[He1 _]]; [|exact He1].
    subst a1. cbn in Hs, Hfree.
    rewrite lookup_insert_ne in Hfree
      by (destruct (is_server_ a); cbn in Hs; lia).
    destruct (Hall s Hs) as [? Hx]. congruence. }
  rewrite He1. subst a1. cbn. rewrite insert_insert_eq. done.
Qed.

Lemma Command_exhausted_witness :
  let a := mkAdmin false 0 exhausted_table [] in
  let c1 := Command (mkRequest 1 "a") (handler 1) a in
  let c2 := Command (mkRequest 1 "b") (handler 2) c1.2 in
  (GetAvailableSerial a).1 = 0
  ∧ command_serial c1.1 = 0
  ∧ command_handlers_ c1.2 = <[0 := handler 1]> (command_handlers_ a)
  ∧ command_serial c2.1 = 0
  ∧ command_handlers_ c2.2 = <[0 := handler 2]> (command_handlers_ a).
Proof.
  cbn zeta.
  assert (H0 : (GetAvailableSerial (mkAdmin false 0 exhausted_table [])).1 = 0)
    by (rewrite GetAvailableSerial_exhausted; reflexivity).
  split; [exact H0|].
  exact (Command_exhausted (mkRequest 1 "a") (handler 1) (mkRequest 1 "b")
           (handler 2) (mkAdmin false 0 exhausted_table []) H0).
Defined.

(** X6: [ExecuteAndRemoveCommandHandler] acts on the serial received
    whatever serial it is called with: it leaves every other entry of the
    table, and with no handler under the serial received it changes
    nothing, even with one under the serial it is called with. *)
Theorem ExecuteAndRemoveCommandHandler_frame serial a :
  ExecuteAndRemoveCommandHandler serial a
  = ExecuteAndRemoveCommandHandler (command_serial_received_ a) a
  ∧ (∀ k, k ≠ command_serial_received_ a ->
          command_handlers_ (ExecuteAndRemoveCommandHandler serial a) !! k
          = command_handlers_ a !! k)
  ∧ (command_handlers_ a !! command_serial_received_ a = None ->
     ExecuteAndRemoveCommandHandler serial a = a).
Proof.
  unfold ExecuteAndRemoveCommandHandler. split_and!.
  - reflexivity.
  - intros k Hk.
    destruct (command_handlers_ a !! command_serial_received_ a); [|done].
    cbn. by apply lookup_delete_ne.
  - intros ->. reflexivity.
Qed.

End admin_more_facts.

(** ** The buffered TLS stream, further *)

Section tls_more_facts.
Import tls.
Local Open Scope N_scope.

(** A relation that holds across each move of [handle_data_n_ops] holds
    across the whole of it. *)
Lemma handle_data_n_ops_rel (R : state -> state -> Prop) :
  (∀ s, R s s) ->
  (∀ s1 s2 s3, R s1 s2 -> R s2 s3 -> R s1 s3) ->
  (∀ s, R s (restart_pulling s)) ->
  (∀ s op ops,
     op_queue_ s = op :: ops -> failed (status_ s) = false ->
     data_queue_ s ≠ 0 ->
     R s (post (do_complete op success (fill_buffer op (data_queue_ s)).1)
               (set_data_queue_ (fill_buffer op (data_queue_ s)).2
                                (set_op_queue_ ops s)))) ->
  (∀ s op ops,
     op_queue_ s = op :: ops -> failed (status_ s) = true ->
     R s (post (do_complete_status op) (set_op_queue_ ops s))) ->
  ∀ s, R s (handle_data_n_ops s).
Proof.
  intros Hrefl Htrans Hrestart Hserve Hfail s.
  remember (List.length (op_queue_ s)) as n eqn:Hn. revert s Hn.
  induction n as [n IH] using lt_wf_ind. intros s Hn.
  rewrite handle_data_n_ops_eq.
  destruct (failed (status_ s)) eqn:Hf.
  - destruct (op_queue_ s) as [|op ops] eqn:Ho; [apply Hrefl|].
    eapply Htrans; [by apply (Hfail s op ops)|].
    eapply IH; [|reflexivity]. cbn in *. lia.
  - cbn zeta.
    destruct (restart_pulling_fields s) as (Hs & Hd & Ho & _).
    destruct (op_queue_ (restart_pulling s)) as [|op ops] eqn:Ho';
      [apply Hrestart|].
    destruct (N.eqb_spec (data_queue_ (restart_pulling s)) 0) as [|Hz];
      cbn [negb]; [apply Hrestart|].
    eapply Htrans; [apply Hrestart|].
    eapply Htrans; [apply (Hserve _ op ops Ho'); congruence|].
    eapply IH; [|reflexivity]. cbn. rewrite <- Ho in Hn.
    cbn in Hn. lia.
Qed.

Lemma handle_data_n_ops_status s :
  status_ (handle_data_n_ops s) = status_ s.
Proof.
  apply (handle_data_n_ops_rel (fun s s' => status_ s' = status_ s));
    try done.
  - intros s1 s2 s3 H1 H2. congruence.
  - intros s0. by destruct (restart_pulling_fields s0) as (-> & _).
Qed.

Lemma omap_completed_status ops :
  omap completed (map do_complete_status ops) = ops.
Proof. induction ops as [|op ops IH]; cbn; [done|]. by rewrite IH. Qed.

(** When [handle_data_n_ops] is done, with no error saved, no operation is
    pending or no data is queued, and the bufferer is pulling or the queue
    is at or above the low-water mark. *)
Lemma handle_data_n_ops_done s :
  failed (status_ s) = false ->
  (op_queue_ (handle_data_n_ops s) = []
   ∨ data_queue_ (handle_data_n_ops s) = 0)
  ∧ (pulling_ (handle_data_n_ops s) = true
     ∨ lower_queue_size_bound <= data_queue_ (handle_data_n_ops s)).
Proof.
  intros Hf. split.
  - remember (List.length (op_queue_ s)) as n eqn:Hn. revert s Hn Hf.
    induction n as [n IH] using lt_wf_ind. intros s Hn Hf.
    rewrite handle_data_n_ops_eq, Hf. cbn zeta.
    destruct (restart_pulling_fields s) as (Hs & Hd & Ho & _).
    destruct (op_queue_ (restart_pulling s)) as [|op ops] eqn:Ho';
      [by left|].
    destruct (N.eqb_spec (data_queue_ (restart_pulling s)) 0) as [Hz|Hz];
      cbn [negb]; [by right|].
    eapply IH; [|reflexivity|cbn; congruence].
    cbn. rewrite <- Ho in Hn. cbn in Hn. lia.
  - destruct (handle_data_n_ops_ok s Hf) as (_ & _ & Hp).
    destruct (N.ltb_spec (data_queue_ (handle_data_n_ops s))
                         lower_queue_size_bound); [|by right].
    left. apply Hp. by right.
Qed.

(** X7: [handle_data_n_ops] completes pending operations in the order of
    the queue: the operations it takes are the first of the queue, their
    completions are posted in that order after those already posted, and
    the others stay pending in their order. With no error saved it stops
    only when no operation is pending or no data is queued; with an error
    saved it takes them all. *)
Theorem handle_data_n_ops_in_order s :
  ∃ served,
    op_queue_ s = served ++ op_queue_ (handle_data_n_ops s)
    ∧ omap completed (io_service_ (handle_data_n_ops s))
      = omap completed (io_service_ s) ++ served
    ∧ (if failed (status_ s) then op_queue_ (handle_data_n_ops s) = []
       else op_queue_ (handle_data_n_ops s) = []
            ∨ data_queue_ (handle_data_n_ops s) = 0).
Proof.
  assert (H : ∃ served,
    op_queue_ s = served ++ op_queue_ (handle_data_n_ops s)
    ∧ omap completed (io_service_ (handle_data_n_ops s))
      = omap completed (io_service_ s) ++ served).
  { apply (handle_data_n_ops_rel (fun s s' => ∃ served,
      op_queue_ s = served ++ op_queue_ s'
      ∧ omap completed (io_service_ s')
        = omap completed (io_service_ s) ++ served)).
    - intros s0. exists []. by rewrite app_nil_r.
    - intros s1 s2 s3 (l1 & H1 & H1') (l2 & H2 & H2'). exists (l1 ++ l2).
      rewrite H1, H2, H2', H1', !app_assoc. done.
    - intros s0. exists []. rewrite app_nil_r.
      destruct (restart_pulling_fields s0) as (_ & _ & -> & _).
      split; [done|]. unfold restart_pulling, start_pulling.
      destruct (_ && _), (pulling_ s0); cbn; try done.
      by rewrite omap_app, app_nil_r.
    - intros s0 op ops Ho _ _. exists [op]. cbn. rewrite Ho, omap_app. done.
    - intros s0 op ops Ho _. exists [op]. cbn. rewrite Ho, omap_app. done. }
  destruct H as (served & H1 & H2). exists served.
  split; [exact H1|]. split; [exact H2|].
  destruct (failed (status_ s)) eqn:Hf.
  - rewrite handle_data_n_ops_failed by exact Hf. reflexivity.
  - by apply handle_data_n_ops_done.
Qed.

(** X8: [handle_data_n_ops] run a second time changes nothing. *)
Theorem handle_data_n_ops_twice s :
  handle_data_n_ops (handle_data_n_ops s) = handle_data_n_ops s.
Proof.
  pose proof (handle_data_n_ops_status s) as Hs.
  set (s' := handle_data_n_ops s) in *.
  destruct (failed (status_ s)) eqn:Hf.
  - assert (Ho : op_queue_ s' = [])
      by (subst s'; rewrite handle_data_n_ops_failed by exact Hf; done).
    rewrite handle_data_n_ops_eq, Hs, Hf, Ho. reflexivity.
  - destruct (handle_data_n_ops_done s Hf) as (Hd & Hp). fold s' in Hd, Hp.
    rewrite handle_data_n_ops_eq, Hs, Hf. cbn zeta.
    assert (Hr : restart_pulling s' = s').
    { unfold restart_pulling.
      destruct (N.ltb_spec (data_queue_ s') lower_queue_size_bound);
        [|done].
      destruct Hp as [Hp|Hp]; [rewrite Hp; reflexivity|lia]. }
    rewrite Hr. destruct (op_queue_ s') as [|op ops]; [done|].
    destruct Hd as [Hd|Hd]; [done|rewrite Hd; reflexivity].
Qed.

Lemma cancel_twice s : cancel (cancel s) = cancel s.
Proof.
  rewrite (cancel_eq (cancel s)), (cancel_eq s). cbn.
  by rewrite app_nil_r.
Qed.

(** X9: closing a closed socket changes nothing: [close] after [close] is
    [close], and so is [cancel] after [cancel]. *)
Theorem close_twice s :
  close (close s) = close s ∧ cancel (cancel s) = cancel s.
Proof.
  split; [|apply cancel_twice].
  unfold close. rewrite (cancel_eq (set_is_open false s)).
  rewrite cancel_eq. cbn. by rewrite app_nil_r.
Qed.

(** X10: when a pull read completes with [operation_aborted], its handler
    cancels, and then, with no error saved, [handle_data_n_ops] finds the
    queue empty and the bufferer not pulling, and starts pulling again;
    with an error saved it does not. *)
Theorem pull_aborted_restarts s ec length :
  value ec = operation_aborted ->
  pull_handler ec length s
  = if failed (status_ s) then cancel s
    else post async_pull_packets_task (set_pulling_ true (cancel s)).
Proof.
  intros Hv. unfold pull_handler.
  assert (Hf : failed ec = true) by (unfold failed; rewrite Hv; done).
  rewrite Hf, Hv, Z.eqb_refl. cbn [negb].
  assert (Hc : status_ (cancel s) = status_ s ∧ op_queue_ (cancel s) = []
               ∧ data_queue_ (cancel s) = 0 ∧ pulling_ (cancel s) = false)
    by (rewrite cancel_eq; done).
  destruct Hc as (Hs & Ho & Hd & Hp).
  rewrite handle_data_n_ops_eq, Hs.
  destruct (failed (status_ s)); [by rewrite Ho|].
  cbn zeta.
  assert (Hr : restart_pulling (cancel s)
               = post async_pull_packets_task (set_pulling_ true (cancel s))).
  { unfold restart_pulling, start_pulling. rewrite Hd, Hp. reflexivity. }
  rewrite Hr.
  assert (Ho' : op_queue_ (post async_pull_packets_task
                                (set_pulling_ true (cancel s))) = [])
    by exact Ho.
  rewrite Ho'. reflexivity.
Qed.

Lemma pull_aborted_restarts_witness :
  let s := mk_state success 4096 [mk_op [16] 1] true [] [] true [] in
  value operation_aborted_code = operation_aborted
  ∧ pull_handler operation_aborted_code 0 s
    = mk_state success 0 [] true
               [do_complete (mk_op [16] 1) operation_aborted_code 0;
                async_pull_packets_task] [] true [].
Proof.
  cbn zeta. split; [reflexivity|].
  rewrite (pull_aborted_restarts
             (mk_state success 4096 [mk_op [16] 1] true [] [] true [])
             operation_aborted_code 0 eq_refl).
  reflexivity.
Defined.

Lemma pull_handler_status ec length s :
  failed (status_ s) = true ->
  failed (status_ (pull_handler ec length s)) = true.
Proof.
  intros Hs. unfold pull_handler. rewrite handle_data_n_ops_status.
  destruct (failed ec) eqn:Hf; cbn [negb].
  - destruct (value ec =? operation_aborted)%Z.
    + rewrite cancel_eq. exact Hs.
    + exact Hf.
  - cbn. rewrite Hs. exact Hs.
Qed.

(** X11: a saved error is never cleared: whatever happens next, the status
    stays an error. *)
Theorem saved_error_stays events s s' :
  run events s = Some s' ->
  failed (status_ s) = true ->
  failed (status_ s') = true.
Proof.
  revert s. induction events as [|e events IH]; intros s; cbn [run].
  - intros [= <-]. done.
  - destruct (step e s) as [s1|] eqn:He; [|discriminate].
    intros Hr Hs. apply (IH s1 Hr). clear IH Hr.
    destruct e as [ec|buffers handler| |i|ec length]; cbn [step] in He.
    + injection He as <-. unfold handshake, start_pulling.
      destruct (negb _), (pulling_ s); exact Hs.
    + injection He as <-. unfold async_read_some.
      destruct (negb _); exact Hs.
    + injection He as <-. unfold close. rewrite cancel_eq. exact Hs.
    + destruct (io_service_ s !! i) as [t|]; [|discriminate].
      injection He as <-.
      destruct t; cbn [run_task]; try exact Hs.
      * unfold async_pull_packets. destruct (_ <? _); exact Hs.
      * rewrite handle_data_n_ops_status. exact Hs.
      * by apply pull_handler_status.
    + destruct (socket_ s); [discriminate|].
      destruct (_ && _); [discriminate|].
      injection He as <-. exact Hs.
Qed.

Lemma saved_error_stays_witness :
  let s := mk_state (mk_error_code 104 system_category) 0 [] true [] []
                    true [] in
  let events := [call_async_read_some [8] 1; run_nth 0; call_close;
                 call_handshake success; run_nth 0] in
  ∃ s', run events s = Some s'
        ∧ failed (status_ s) = true
        ∧ failed (status_ s') = true.
Proof.
  cbn zeta. eexists. split; [vm_compute; reflexivity|].
  split; [reflexivity|].
  apply (saved_error_stays
           [call_async_read_some [8] 1; run_nth 0; call_close;
            call_handshake success; run_nth 0]
           (mk_state (mk_error_code 104 system_category) 0 [] true [] []
                     true [])).
  - vm_compute. reflexivity.
  - reflexivity.
Defined.

(** X12: on an open stream at most one pull read is under way, and only
    while [pulling_] is set, whatever the user, the io_service and the
    stream have done since the constructor. *)
Theorem one_pull_read_at_a_time events s :
  run events create = Some s ->
  is_open s = true ->
  (List.length (socket_ s) <= 1)%nat
  ∧ (socket_ s ≠ [] -> pulling_ s = true).
Proof.
  intros Hr Ho.
  destruct (invariant_run events create s Hr invariant_create)
    as (_ & _ & H).
  rewrite Ho in H. destruct H as (H & _). unfold loop_steps in H.
  destruct (pulling_ s); cbn in H.
  - split; [lia|done].
  - split; [lia|]. destruct (socket_ s); [done|cbn in H; lia].
Qed.

Lemma one_pull_read_at_a_time_witness :
  let events := [call_handshake success; run_nth 0;
                 read_completes success 51200; run_nth 0;
                 call_handshake success] in
  ∃ s, run events create = Some s
       ∧ is_open s = true
       ∧ socket_ s = [receive_buffer_size]
       ∧ (List.length (socket_ s) <= 1)%nat
       ∧ (socket_ s ≠ [] -> pulling_ s = true).
Proof.
  cbn zeta. eexists. split; [vm_compute; reflexivity|].
  split; [reflexivity|]. split; [reflexivity|].
  apply (one_pull_read_at_a_time
           [call_handshake success; run_nth 0;
            read_completes success 51200; run_nth 0;
            call_handshake success]).
  - vm_compute. reflexivity.
  - reflexivity.
Defined.

End tls_more_facts.

(** ** Read handlers are neither lost nor called twice *)

Section tls_handlers_facts.
Import tls.
Local Open Scope N_scope.

Lemma omap_handler_of_aborted ops :
  omap handler_of
       (map (fun op => do_complete op operation_aborted_code 0) ops)
  = map op_handler ops.
Proof. induction ops as [|op ops IH]; cbn; [done|]. by rewrite IH. Qed.

Lemma handlers_of_restart_pulling s :
  handlers_of (restart_pulling s) = handlers_of s.
Proof.
  unfold restart_pulling, start_pulling, handlers_of.
  destruct (_ && _), (pulling_ s); cbn; try done.
  by rewrite omap_app, app_nil_r.
Qed.

Lemma handlers_of_handle_data_n_ops s :
  handlers_of (handle_data_n_ops s) ≡ₚ handlers_of s.
Proof.
  apply (handle_data_n_ops_rel (fun s s' => handlers_of s' ≡ₚ handlers_of s)).
  - done.
  - intros s1 s2 s3 H1 H2. by rewrite H2.
  - intros s0. by rewrite handlers_of_restart_pulling.
  - intros s0 op ops Ho _ _. unfold handlers_of. cbn.
    rewrite Ho, omap_app. cbn. solve_Permutation.
  - intros s0 op ops Ho _. unfold handlers_of. cbn.
    rewrite Ho, omap_app. cbn. solve_Permutation.
Qed.

Lemma handlers_of_cancel s : handlers_of (cancel s) ≡ₚ handlers_of s.
Proof.
  rewrite cancel_eq. unfold handlers_of. cbn.
  rewrite omap_app, omap_handler_of_aborted. solve_Permutation.
Qed.

Lemma handlers_of_async_pull_packets s :
  handlers_of (async_pull_packets s) = handlers_of s.
Proof. unfold async_pull_packets. by destruct (_ <? _). Qed.

Lemma handlers_of_pull_handler ec length s :
  handlers_of (pull_handler ec length s) ≡ₚ handlers_of s.
Proof.
  unfold pull_handler. rewrite handlers_of_handle_data_n_ops.
  destruct (negb (failed ec)).
  - destruct (negb _); [rewrite handlers_of_async_pull_packets|]; done.
  - destruct (_ =? _)%Z; [apply handlers_of_cancel|done].
Qed.

Lemma handlers_of_run_task t s :
  handlers_of (run_task t s) ≡ₚ handlers_of s ++ option_list (handler_of t).
Proof.
  destruct t; cbn [run_task handler_of option_list];
    rewrite ?app_nil_r.
  - by rewrite handlers_of_async_pull_packets.
  - apply handlers_of_handle_data_n_ops.
  - apply handlers_of_pull_handler.
  - unfold handlers_of. cbn. rewrite !fmap_app. cbn. solve_Permutation.
  - unfold handlers_of. cbn. rewrite !fmap_app. cbn. solve_Permutation.
  - unfold handlers_of. cbn. rewrite !fmap_app. cbn. solve_Permutation.
Qed.

Lemma omap_delete_Permutation {A B} (f : A -> option B) l i x :
  l !! i = Some x ->
  omap f l ≡ₚ option_list (f x) ++ omap f (delete i l).
Proof.
  intros H. rewrite (delete_Permutation l i x H) at 1. cbn.
  by destruct (f x).
Qed.

Lemma handlers_of_step e s s' :
  step e s = Some s' ->
  handlers_of s' ≡ₚ handlers_of s ++ requested [e].
Proof.
  destruct e as [ec|buffers handler| |i|ec length]; cbn [step requested];
    cbn [omap list_omap]; rewrite ?app_nil_r; intros He.
  - injection He as <-. unfold handshake, start_pulling, handlers_of.
    destruct (negb _), (pulling_ s); cbn; try done.
    rewrite ?omap_app; cbn; rewrite ?app_nil_r; done.
  - injection He as <-. unfold async_read_some, handlers_of.
    destruct (negb _); cbn; rewrite ?fmap_app, omap_app; cbn;
      solve_Permutation.
  - injection He as <-. unfold close. rewrite handlers_of_cancel. done.
  - destruct (io_service_ s !! i) as [t|] eqn:Hi; [|discriminate].
    injection He as <-. rewrite handlers_of_run_task.
    unfold handlers_of at 1 2. cbn.
    rewrite (omap_delete_Permutation handler_of _ _ _ Hi).
    solve_Permutation.
  - destruct (socket_ s); [discriminate|].
    destruct (_ && _); [discriminate|].
    injection He as <-. unfold handlers_of. cbn.
    rewrite ?omap_app; cbn; rewrite ?app_nil_r; done.
Qed.

Lemma handlers_of_run events s s' :
  run events s = Some s' ->
  handlers_of s' ≡ₚ handlers_of s ++ requested events.
Proof.
  revert s. induction events as [|e events IH]; intros s; cbn [run].
  - intros [= <-]. by rewrite app_nil_r.
  - destruct (step e s) as [s1|] eqn:He; [|discriminate].
    intros Hr. rewrite (IH s1 Hr), (handlers_of_step e s s1 He).
    assert (Hc : requested (e :: events) = requested [e] ++ requested events)
      by (destruct e; reflexivity).
    by rewrite Hc, app_assoc.
Qed.

(** X13: no read handler is lost or called twice: at any time, the
    handlers called, those of the pending operations and those the
    io_service is still to call are, together, the handlers that were
    passed to [async_read_some], each as many times as it was passed. *)
Theorem read_handlers_accounted_for events s :
  run events create = Some s ->
  (called s).*1.*1 ++ map op_handler (op_queue_ s)
  ++ omap handler_of (io_service_ s)
  ≡ₚ requested events.
Proof.
  intros Hr. apply (handlers_of_run events create s Hr).
Qed.

Lemma read_handlers_accounted_for_witness :
  let events := [call_handshake success; call_async_read_some [8] 1;
                 call_async_read_some [] 2; call_async_read_some [4] 3;
                 run_nth 0; run_nth 0; read_completes success 10;
                 run_nth 2; run_nth 2; run_nth 0] in
  ∃ s, run events create = Some s
       ∧ (called s).*1.*1 = [1; 2]%nat
       ∧ (called s).*1.*1 ++ map op_handler (op_queue_ s)
         ++ omap handler_of (io_service_ s)
         ≡ₚ requested events.
Proof.
  cbn zeta. eexists. split; [vm_compute; reflexivity|].
  split; [reflexivity|].
  apply (read_handlers_accounted_for
           [call_handshake success; call_async_read_some [8] 1;
            call_async_read_some [] 2; call_async_read_some [4] 3;
            run_nth 0; run_nth 0; read_completes success 10;
            run_nth 2; run_nth 2; run_nth 0]).
  vm_compute. reflexivity.
Defined.

End tls_handlers_facts.

(** ** The parameter sets a stack of layers reads *)

Section layer_more_facts.
Import layer.

Context {tcp_endpoint ProxyEndpointContext : Type}.
Variable make_tcp_endpoint :
  LayerParameters -> error_code -> tcp_endpoint * error_code.
Variable MakeProxyContext :
  LayerParameters -> error_code -> ProxyEndpointContext * error_code.
Variable acceptor_endpoint : ProxyEndpointContext -> bool.
Variable UpdateRemoteHost :
  ProxyEndpointContext -> LayerParameters -> ProxyEndpointContext * bool.

(** X14: given at least [endpoint_stack_size] parameter sets,
    [make_endpoint] dereferences no iterator at the end of the stack and
    its result does not depend on the sets after the first
    [endpoint_stack_size]: so for [tcp], and so for the proxy layer over
    any next layer for which it is so, with a stack size of at least 1. *)
Theorem make_endpoint_reads_its_own_sets :
  reads_only (tcp make_tcp_endpoint) tcp_endpoint_stack_size
  ∧ ∀ NextLayer n,
      (1 <= n)%nat ->
      reads_only NextLayer n ->
      reads_only
        (basic_ProxyProtocol MakeProxyContext acceptor_endpoint
                             UpdateRemoteHost NextLayer)
        (basic_ProxyProtocol_endpoint_stack_size n).
Proof.
  split.
  - unfold tcp_endpoint_stack_size.
    intros [|parameters stack] lower ec Hn; cbn in Hn; [lia|].
    cbn. split; [eauto|reflexivity].
  - unfold basic_ProxyProtocol_endpoint_stack_size.
    intros NextLayer n Hn Hnext [|parameters stack] lower ec Hl;
      cbn in Hl; [lia|].
    destruct (Hnext stack 6%Z
                (MakeProxyContext parameters ec).2 ltac:(lia))
      as [[next Hsome] Htake].
    destruct stack as [|next_parameters stack]; [cbn in Hl; lia|].
    assert (Hh : head (take n (next_parameters :: stack))
                 = Some next_parameters)
      by (destruct n; [lia|reflexivity]).
    cbn [Nat.add take make_endpoint basic_ProxyProtocol head tail mbind
         option_bind].
    destruct (MakeProxyContext parameters ec) as [context ec1]. cbn in *.
    destruct (failed ec1); [split; [eauto|reflexivity]|].
    rewrite Hh, Htake, Hsome. cbn.
    destruct (acceptor_endpoint context); cbn.
    + split; [eauto|reflexivity].
    + destruct (UpdateRemoteHost context next_parameters) as [c [|]]; cbn;
        (split; [eauto|reflexivity]).
Qed.

End layer_more_facts.

Lemma make_endpoint_reads_its_own_sets_witness :
  layer.reads_only layer.connecting.proxy_over_tcp 2.
Proof.
  destruct (make_endpoint_reads_its_own_sets
              layer.connecting.make_tcp_endpoint
              layer.connecting.MakeProxyContext
              layer.connecting.acceptor_endpoint
              layer.connecting.UpdateRemoteHost) as [H1 H2].
  apply (H2 (layer.tcp layer.connecting.make_tcp_endpoint) 1%nat).
  - lia.
  - exact H1.
Defined.
